(** * seo-map-lite: the keyword-structure generator of [keyword_generator.py]

    A shallow embedding of the rule engine, the provider cascade and the
    tree builder, followed by the properties of the specification that
    were checked against it.

    Keywords are modelled as [string], that is as text of 8-bit characters;
    [str.lower], [str.title] and [str.split] act on the ASCII letters and
    the ASCII white space, every other character is left as it is.

    The tree builder is studied on the runs in which the services answer
    in the form the prompts ask for ([World]).  What the capabilities do
    with any other answer, including the exception that leaves
    [generate_related_keywords], is modelled in [Raw] over [PyVal]. *)

From Stdlib Require Import Ascii String NArith ZArith QArith Lia DecimalString DecimalNat.
From stdpp Require Import base decidable option list strings gmap.

(** ** Python's [str] methods that the generator uses *)

Module Str.

Definition code (c : ascii) : N := N_of_ascii c.

Definition isupper (c : ascii) : bool := ((65 <=? code c) && (code c <=? 90))%N.
Definition islower (c : ascii) : bool := ((97 <=? code c) && (code c <=? 122))%N.

Definition lower_char (c : ascii) : ascii :=
  if isupper c then ascii_of_N (code c + 32) else c.
Definition upper_char (c : ascii) : ascii :=
  if islower c then ascii_of_N (code c - 32) else c.

Fixpoint map_chars (f : ascii -> ascii) (s : string) : string :=
  match s with
  | EmptyString => EmptyString
  | String c s' => String (f c) (map_chars f s')
  end.

(** [s.isascii()] *)
Fixpoint isascii (s : string) : bool :=
  match s with
  | EmptyString => true
  | String c s' => (code c <? 128)%N && isascii s'
  end.

(** [s.lower()] on text whose letters are ASCII.  Python also lowers the
    letters beyond ASCII, and one of them (U+0130) becomes two characters;
    here such characters stay as they are, so what depends on the length
    or on the characters of a lowered text is stated for ASCII text. *)
Definition lower (s : string) : string := map_chars lower_char s.

(** [s.replace(a, b)] for one-character [a] and [b] *)
Definition replace_char (a b : ascii) (s : string) : string :=
  map_chars (fun c => if Ascii.eqb c a then b else c) s.

(** [needle in hay] *)
Fixpoint contains (needle hay : string) : bool :=
  String.prefix needle hay ||
  match hay with
  | EmptyString => false
  | String _ hay' => contains needle hay'
  end.

(** [s.title()]: a cased character that follows an uncased one is put in
    upper case, one that follows a cased character in lower case. *)
Fixpoint title_from (prev_cased : bool) (s : string) : string :=
  match s with
  | EmptyString => EmptyString
  | String c s' =>
      if islower c then
        String (if prev_cased then c else upper_char c) (title_from true s')
      else if isupper c then
        String (if prev_cased then lower_char c else c) (title_from true s')
      else String c (title_from false s')
  end.

Definition title (s : string) : string := title_from false s.

(** white space as [str.split()] sees it in the ASCII range *)
Definition isspace (c : ascii) : bool :=
  (((9 <=? code c) && (code c <=? 13)) || ((28 <=? code c) && (code c <=? 32)))%N.

Fixpoint rev_append (acc s : string) : string :=
  match acc with
  | EmptyString => s
  | String c acc' => rev_append acc' (String c s)
  end.

Definition flush (cur : string) : list string :=
  match cur with
  | EmptyString => []
  | _ => [rev_append cur EmptyString]
  end.

(** [cur] holds the characters of the word being read, last one first *)
Fixpoint split_from (cur : string) (s : string) : list string :=
  match s with
  | EmptyString => flush cur
  | String c s' =>
      if isspace c then flush cur ++ split_from EmptyString s'
      else split_from (String c cur) s'
  end.

(** [s.split()] *)
Definition split (s : string) : list string := split_from EmptyString s.

(** [s.split(sep)[0]] for a one-character separator *)
Fixpoint before (sep : ascii) (s : string) : string :=
  match s with
  | EmptyString => EmptyString
  | String c s' => if Ascii.eqb c sep then EmptyString else String c (before sep s')
  end.

(** [sep.join(l)] *)
Fixpoint join (sep : string) (l : list string) : string :=
  match l with
  | [] => EmptyString
  | [x] => x
  | x :: l' => x +:+ sep +:+ join sep l'
  end.

(** [str(n)] for a natural number *)
Definition of_nat (n : nat) : string := NilEmpty.string_of_uint (Nat.to_uint n).

(** truth value of a string *)
Definition truthy (s : string) : bool :=
  match s with EmptyString => false | _ => true end.

Definition isdigit (c : ascii) : bool := ((48 <=? code c) && (code c <=? 57))%N.

(** a character matched by the class [a-zA-Z0-9] *)
Definition isalnum (c : ascii) : bool := islower c || isupper c || isdigit c.

(** [s.lstrip()] *)
Fixpoint lstrip (s : string) : string :=
  match s with
  | EmptyString => EmptyString
  | String c s' => if isspace c then lstrip s' else s
  end.

(** [s.rstrip()] *)
Fixpoint rstrip (s : string) : string :=
  match s with
  | EmptyString => EmptyString
  | String c s' =>
      match rstrip s' with
      | EmptyString => if isspace c then EmptyString else String c EmptyString
      | r => String c r
      end
  end.

(** [s.strip()] *)
Definition strip (s : string) : string := rstrip (lstrip s).

(** [s.split(sep)] for a one-character separator: never an empty list *)
Fixpoint split_on (sep : ascii) (s : string) : list string :=
  match s with
  | EmptyString => [EmptyString]
  | String c s' =>
      if Ascii.eqb c sep then EmptyString :: split_on sep s'
      else match split_on sep s' with
           | piece :: pieces => String c piece :: pieces
           | [] => [String c EmptyString]
           end
  end.

(** [s.split(sep, 1)[1]] for a one-character separator that occurs in [s] *)
Fixpoint after_first (sep : ascii) (s : string) : string :=
  match s with
  | EmptyString => EmptyString
  | String c s' => if Ascii.eqb c sep then s' else after_first sep s'
  end.

(** [s[:n]] *)
Fixpoint first_chars (n : nat) (s : string) : string :=
  match n, s with
  | S n', String c s' => String c (first_chars n' s')
  | _, _ => EmptyString
  end.

(** the line feed and the double quote as strings *)
Definition newline : string := String (ascii_of_nat 10) EmptyString.
Definition dquote : string := String (ascii_of_nat 34) EmptyString.

End Str.

(** ** Intent categories and the static tables *)

Inductive Intent := Commercial | Informational | Navigational.

#[global] Instance Intent_eq_dec : EqDecision Intent.
Proof. solve_decision. Defined.

Definition INTENTS : list Intent := [Commercial; Informational; Navigational].

Definition INFORMATIONAL_MODIFIERS : list string :=
  ["what is"; "how to"; "guide"; "tutorial"; "tips for"; "best practices";
   "examples of"; "understanding"; "learn"; "beginner's guide to"; "advanced";
   "complete guide"; "definition"; "explained"; "overview"; "benefits of";
   "history of"; "types of"; "comparison"; "vs"; "difference between"].

Definition COMMERCIAL_MODIFIERS : list string :=
  ["best"; "top"; "buy"; "cheap"; "affordable"; "premium"; "review"; "price";
   "cost of"; "for sale"; "deal"; "discount"; "professional"; "services";
   "near me"; "online"; "shop"; "purchase"; "hire"; "agency"; "software";
   "tools"; "platform"].

Definition NAVIGATIONAL_MODIFIERS : list string :=
  ["login"; "sign up"; "download"; "app"; "website"; "official"; "customer service";
   "contact"; "support"; "dashboard"; "account"; "register"; "free trial"; "demo";
   "forum"].

Definition DOMAINS : list string :=
  ["example.com"; "seosite.com"; "digitalmarketer.com"; "wordstream.com";
   "semrush.com"; "ahrefs.com"; "moz.com"; "searchenginejournal.com";
   "backlinko.com"; "neilpatel.com"; "hubspot.com"; "seoroundtable.com";
   "searchengineland.com"; "contentmarketinginstitute.com"; "bloggingwizard.com"].

(** the two indicator lists local to [determine_intent] *)
Definition commercial_indicators : list string :=
  ["buy"; "price"; "cost"; "shop"; "purchase"; "review"; "best"; "top"; "vs"; "comparison"].

Definition navigational_indicators : list string :=
  ["login"; "sign up"; "download"; "app"; "website"; "contact"; "support"].

(** ** Rule engine: intent *)

(** [for indicator in indicators: if indicator in keyword_lower: return ...];
    the loop returns at the first indicator found, so it succeeds exactly
    when some indicator occurs. *)
Fixpoint first_indicator (indicators : list string) (keyword_lower : string) : option string :=
  match indicators with
  | [] => None
  | indicator :: rest =>
      if Str.contains indicator keyword_lower then Some indicator
      else first_indicator rest keyword_lower
  end.

(** the rule-based tail of [determine_intent] *)
Definition rule_intent (keyword : string) : Intent :=
  let keyword_lower := Str.lower keyword in
  match first_indicator commercial_indicators keyword_lower with
  | Some _ => Commercial
  | None =>
      match first_indicator navigational_indicators keyword_lower with
      | Some _ => Navigational
      | None => Informational
      end
  end.

(** ** The random module

    Every value the program obtains from [random] is an answer to
    [randbelow n]: a number below [n].  The generator is not modelled; the
    raw numbers are supplied from outside (see [World]) and reduced below
    [n], so every outcome of the real generator is covered. *)

Definition randbelow (n : nat) (raw : nat) : nat := raw mod n.

(** [random.randint(a, b)], both ends included *)
Definition randint (a b : nat) (raw : nat) : nat := a + randbelow (b - a + 1) raw.

(** [random.choice(seq)] on a sequence that is written out in the source and
    so is not empty: its first element and the others *)
Definition choice {A} (first : A) (others : list A) (raw : nat) : A :=
  default first ((first :: others) !! randbelow (S (length others)) raw).

(** [random.sample(population, k)]: [k] elements at distinct positions.  The
    selection keeps the elements not yet chosen in [pool]: each round picks
    position [j] among them and moves the last one into the vacancy.  [raws]
    numbers the raw values, [i] is the index of the next one.  (Python
    refuses [k] larger than the population; the callers never ask for it and
    the model then stops early.) *)
Fixpoint sample {A} (pool : list A) (k : nat) (raws : nat -> nat) (i : nat) : list A :=
  match k with
  | 0 => []
  | S k' =>
      let n := length pool in
      let j := randbelow n (raws i) in
      match pool !! j, pool !! (n - 1) with
      | Some x, Some y => x :: sample (take (n - 1) (<[j := y]> pool)) k' raws (S i)
      | _, _ => []
      end
  end.

(** [list(set(l))]: the distinct elements of [l], each once, in the order
    the hash table happens to iterate them; that order is taken from outside
    as a selection sequence. *)
Definition list_of_set (order : nat -> nat) (l : list string) : list string :=
  let distinct := remove_dups l in
  sample distinct (length distinct) order 0.

(** ** Process state and the outside world *)

(** [os.environ] *)
Abbreviation environ := (gmap string string).

(** [os.environ.get(name)] taken as a truth value: set and not empty *)
Definition env_set (env : environ) (name : string) : bool :=
  match env !! name with
  | Some v => Str.truthy v
  | None => false
  end.

(** The module-level names bound when [keyword_generator] is imported. *)
Record Globals := {
  OPENAI_AVAILABLE : bool;
  GEMINI_AVAILABLE : bool;
  GOOGLE_SEARCH_AVAILABLE : bool;
}.

(** Import of the module: the two [try: import ...] blocks succeed or not
    according to the installed packages, and line 27 reads the search
    credentials from the environment as it is at that moment. *)
Definition import_module (openai_installed gemini_installed : bool) (env : environ) : Globals :=
  {| OPENAI_AVAILABLE := openai_installed;
     GEMINI_AVAILABLE := gemini_installed;
     GOOGLE_SEARCH_AVAILABLE :=
       env_set env "GOOGLE_SEARCH_API_KEY" && env_set env "GOOGLE_SEARCH_CX" |}.

Record Competitor := { comp_title : string; url : string }.

(** A capability call is identified by the node it works for (the position
    of the node in the tree, child indices from the root) and by its role. *)
Definition path := list nat.

Inductive Role :=
  | NodeIntent | NodeTitle | NodeWordCount | NodeCompetitors
  | RelatedIntent | RelatedKeywords.

Record Call := { role : Role; site : path }.

(** What the outside hands to one run: for every capability call the raw
    random numbers it draws (numbered from 0 within the call), the hash
    order of the set it builds, and what each provider's service answers
    once the adapter has parsed it and swallowed every failure ([""], [[]]
    or [None] for "no result").  Three adapters hand on the decoded answer
    unchecked (OpenAI keywords, OpenAI competitors, web search): for them
    the fields below give the answer when it has the prompted form, an
    array of strings or of title and URL records; [Answers] and [Raw]
    further down take the answer whatever it is. *)
Record World := {
  raw_random : Call -> nat -> nat;
  set_order : Call -> nat -> nat;
  current_year : nat;
  openai_intent_reply : Call -> string -> option Intent;
  gemini_intent_reply : Call -> string -> option Intent;
  openai_title_reply : Call -> string -> Intent -> string -> string;
  gemini_endpoint_title_reply : Call -> string -> Intent -> string -> string;
  gemini_title_reply : Call -> string -> Intent -> string -> string;
  openai_keywords_reply : Call -> string -> Intent -> list string;
  gemini_keywords_reply : Call -> string -> Intent -> list string;
  google_search_reply : Call -> string -> list Competitor;
  openai_competitors_reply : Call -> string -> list Competitor;
  gemini_competitors_reply : Call -> string -> list Competitor;
}.

(** ** Provider adapters

    Each adapter reads its credential when it is called and reports "no
    result" without it. *)

Section Adapters.
Variable G : Globals.
Variable env : environ.
Variable W : World.

Definition initialize_gemini : bool :=
  env_set env "GEMINI_API_KEY" && GEMINI_AVAILABLE G.

Definition determine_intent_with_openai (c : Call) (keyword : string) : option Intent :=
  if env_set env "OPENAI_API_KEY" then openai_intent_reply W c keyword else None.

Definition determine_intent_with_gemini (c : Call) (keyword : string) : option Intent :=
  if initialize_gemini then gemini_intent_reply W c keyword else None.

Definition generate_title_with_openai (c : Call) (keyword : string) (intent : Intent)
    (custom_prompt : string) : string :=
  if env_set env "OPENAI_API_KEY" then openai_title_reply W c keyword intent custom_prompt
  else "".

Definition generate_title_with_gemini_endpoint (c : Call) (keyword : string)
    (intent : Intent) (custom_prompt : string) : string :=
  if env_set env "GEMINI_API_KEY" then
    gemini_endpoint_title_reply W c keyword intent custom_prompt
  else "".

Definition generate_title_with_gemini (c : Call) (keyword : string) (intent : Intent)
    (custom_prompt : string) : string :=
  let title := generate_title_with_gemini_endpoint c keyword intent custom_prompt in
  if Str.truthy title then title
  else if initialize_gemini then gemini_title_reply W c keyword intent custom_prompt
  else "".

(** for an answer that is an array of strings or holds one under
    "keywords"; [Raw.generate_related_keywords_with_openai] takes any
    answer *)
Definition generate_related_keywords_with_openai (c : Call) (keyword : string)
    (intent : Intent) : list string :=
  if env_set env "OPENAI_API_KEY" then openai_keywords_reply W c keyword intent else [].

Definition generate_related_keywords_with_gemini (c : Call) (keyword : string)
    (intent : Intent) : list string :=
  if initialize_gemini then take 10 (gemini_keywords_reply W c keyword intent) else [].

(** for search items whose title and link are text;
    [Raw.generate_competitors_with_google_search] takes any answer *)
Definition generate_competitors_with_google_search (c : Call) (keyword : string)
    : list Competitor :=
  if env_set env "GOOGLE_SEARCH_API_KEY" && env_set env "GOOGLE_SEARCH_CX" then
    take 3 (google_search_reply W c keyword)
  else [].

(** for an answer that is an array of title and URL records or holds one
    under "competitors"; [Raw.generate_competitors_with_openai] takes any
    answer *)
Definition generate_competitors_with_openai (c : Call) (keyword : string)
    : list Competitor :=
  if env_set env "OPENAI_API_KEY" then take 3 (openai_competitors_reply W c keyword)
  else [].

Definition generate_competitors_with_gemini (c : Call) (keyword : string)
    : list Competitor :=
  if initialize_gemini then take 3 (gemini_competitors_reply W c keyword) else [].

End Adapters.

(** ** The capabilities, each with its provider cascade *)

Section Capabilities.
Variable G : Globals.
Variable env : environ.
Variable W : World.

Definition determine_intent (c : Call) (keyword : string) : Intent :=
  match (if OPENAI_AVAILABLE G && env_set env "OPENAI_API_KEY"
         then determine_intent_with_openai env W c keyword else None) with
  | Some openai_intent => openai_intent
  | None =>
      match (if GEMINI_AVAILABLE G && env_set env "GEMINI_API_KEY"
             then determine_intent_with_gemini G env W c keyword else None) with
      | Some gemini_intent => gemini_intent
      | None => rule_intent keyword
      end
  end.

(** [any(term in custom_prompt.lower() for term in terms)] *)
Definition mentions (terms : list string) (custom_prompt : string) : bool :=
  existsb (fun term => Str.contains term (Str.lower custom_prompt)) terms.

(** the template part of [generate_title], used when a custom prompt is given *)
Definition custom_template_title (c : Call) (keyword : string) (intent : Intent)
    (custom_prompt : string) : string :=
  let K := Str.title keyword in
  let use_numbers := mentions ["number"; "numbered"; "use number"; "add number"] custom_prompt in
  let formal_tone := mentions ["formal"; "professional"; "formal tone"] custom_prompt in
  let raw := raw_random W c 0 in
  match intent with
  | Informational =>
      if use_numbers then
        choice ("10 Essential " +:+ K +:+ " Tips You Should Know")
          ["7 Important Facts About " +:+ K +:+ " for Beginners";
           "5 Step-by-Step Methods to Master " +:+ K;
           "8 Key Concepts of " +:+ K +:+ " Explained"] raw
      else if formal_tone then
        choice ("A Comprehensive Analysis of " +:+ K +:+ " Methodologies")
          ["The Definitive Guide to " +:+ K +:+ ": Professional Insights";
           K +:+ ": A Thorough Examination of Principles and Applications";
           "Understanding the Fundamentals of " +:+ K +:+ ": An In-depth Overview"] raw
      else
        choice ("The Ultimate Guide to " +:+ K +:+ ": Everything You Need to Know")
          ["How to " +:+ K +:+ ": A Complete Step-by-Step Guide";
           K +:+ " 101: Essential Tips and Techniques";
           "Understanding " +:+ K +:+ ": A Comprehensive Overview"] raw
  | Commercial =>
      if use_numbers then
        choice ("Top 10 " +:+ K +:+ " Products to Buy in " +:+ Str.of_nat (current_year W))
          ["5 Best " +:+ K +:+ " Options for Every Budget";
           "7 " +:+ K +:+ " Products Professional Reviewers Recommend";
           "8 Premium " +:+ K +:+ " Solutions Worth Your Investment"] raw
      else if formal_tone then
        choice ("A Comparative Analysis of Premium " +:+ K +:+ " Products")
          ["Professional Review: Selected " +:+ K +:+ " Solutions for Discerning Buyers";
           "Investment Considerations: Superior " +:+ K +:+ " Options Available";
           "An Objective Assessment of Leading " +:+ K +:+ " Products"] raw
      else
        choice ("The Best " +:+ K +:+ " Reviews: Ultimate Buyer's Guide")
          [K +:+ ": Top Options Compared";
           "Best " +:+ K +:+ " Products: Reviews and Comparisons";
           "How to Choose the Right " +:+ K +:+ " for Your Needs"] raw
  | Navigational =>
      if use_numbers then
        choice ("5 Essential " +:+ K +:+ " Resources You Need to Bookmark")
          ["10 Official " +:+ K +:+ " Platforms to Access Information";
           "7 Best Ways to Navigate " +:+ K +:+ " Successfully";
           "3 Direct Pathways to Access " +:+ K +:+ " Resources"] raw
      else if formal_tone then
        choice ("Professional Guide to Accessing " +:+ K +:+ " Resources")
          ["An Index of Authoritative " +:+ K +:+ " Platforms";
           "Navigational Framework for " +:+ K +:+ " Information Access";
           "A Structured Approach to Finding " +:+ K +:+ " Resources"] raw
      else
        choice ("Official " +:+ K +:+ " Resources: Where to Find What You Need")
          ["How to Access " +:+ K +:+ ": A Quick Reference Guide";
           "Navigate " +:+ K +:+ " Like a Pro: Essential Links";
           K +:+ " Directory: Top Sites and Resources"] raw
  end.

(** the standard templates of [generate_title]; the Commercial list draws
    a year with [random.randint(2023, 2024)] before the choice is made *)
Definition standard_template_title (c : Call) (keyword : string) (intent : Intent) : string :=
  let K := Str.title keyword in
  let raws := raw_random W c in
  match intent with
  | Informational =>
      choice ("The Complete Guide to " +:+ K +:+ ": Everything You Need to Know")
        ["How to Master " +:+ K +:+ ": Step-by-Step Tutorial";
         K +:+ " Explained: A Comprehensive Guide for Beginners";
         "10 Essential " +:+ K +:+ " Tips You Should Know";
         "Understanding " +:+ K +:+ ": A Detailed Overview"] (raws 0)
  | Commercial =>
      choice ("Top 10 Best " +:+ K +:+ " Solutions in " +:+ Str.of_nat (randint 2023 2024 (raws 0)))
        ["The Ultimate Buyer's Guide to " +:+ K;
         "Best " +:+ K +:+ " Products: Reviews and Comparisons";
         K +:+ ": Pricing, Features, and Alternatives Compared";
         "How to Choose the Right " +:+ K +:+ " for Your Needs"] (raws 1)
  | Navigational =>
      choice ("Official " +:+ K +:+ " Resources: Where to Find What You Need")
        ["How to Access " +:+ K +:+ ": A Quick Reference Guide";
         "Navigate " +:+ K +:+ " Like a Pro: Essential Links and Resources";
         "Finding the Best " +:+ K +:+ " Platforms and Tools";
         K +:+ " Directory: Top Sites and Resources"] (raws 0)
  end.

(** the rule-based tail of [generate_title] *)
Definition rule_title (c : Call) (keyword : string) (intent : Intent)
    (custom_prompt : string) : string :=
  if Str.truthy custom_prompt then custom_template_title c keyword intent custom_prompt
  else standard_template_title c keyword intent.

Definition generate_title (c : Call) (keyword : string) (intent : Intent)
    (custom_prompt : string) : string :=
  let openai_title :=
    if OPENAI_AVAILABLE G && env_set env "OPENAI_API_KEY"
    then generate_title_with_openai env W c keyword intent custom_prompt else "" in
  if Str.truthy openai_title then openai_title
  else
    let gemini_title :=
      if GEMINI_AVAILABLE G && env_set env "GEMINI_API_KEY"
      then generate_title_with_gemini G env W c keyword intent custom_prompt else "" in
    if Str.truthy gemini_title then gemini_title
    else rule_title c keyword intent custom_prompt.

Definition recommend_word_count (c : Call) (intent : Intent) : nat :=
  match intent with
  | Informational => randint 1500 2500 (raw_random W c 0)
  | Commercial => randint 1200 2000 (raw_random W c 0)
  | Navigational => randint 800 1500 (raw_random W c 0)
  end.

(** truth value of a list *)
Definition nonempty {A} (l : list A) : bool :=
  match l with [] => false | _ => true end.

(** [keyword.lower().replace(' ', '-')] *)
Definition slug_of (keyword : string) : string :=
  Str.replace_char " " "-" (Str.lower keyword).

(** the rule-based tail of [generate_competitors]: [random.sample] takes
    the raw numbers 0 to 2, round [i] of the loop takes two more, one for
    [random.randint(5, 15)] inside the template list and one for
    [random.choice] *)
Definition rule_competitors (c : Call) (keyword : string) : list Competitor :=
  let raws := raw_random W c in
  let K := Str.title keyword in
  let domains := sample DOMAINS 3 raws 0 in
  imap (fun i domain =>
    let title :=
      choice (K +:+ " - Complete Guide and Resources")
        ["Everything You Need to Know About " +:+ K;
         "The Ultimate Guide to " +:+ K +:+ " | " +:+ Str.title (Str.before "." domain);
         Str.of_nat (randint 5 15 (raws (3 + 2 * i))) +:+ " Best " +:+ K +:+ " Strategies";
         K +:+ ": Definition, Examples, and Best Practices";
         K +:+ " 101: Beginner's Guide to Success"] (raws (3 + 2 * i + 1)) in
    let slug := slug_of keyword in
    {| comp_title := title;
       url := "https://www." +:+ domain +:+ "/" +:+ slug +:+ "/" |}) domains.

Definition generate_competitors (c : Call) (keyword : string) : list Competitor :=
  let search_competitors :=
    if GOOGLE_SEARCH_AVAILABLE G
    then generate_competitors_with_google_search env W c keyword else [] in
  if nonempty search_competitors then search_competitors
  else
    let openai_competitors :=
      if OPENAI_AVAILABLE G && env_set env "OPENAI_API_KEY"
      then generate_competitors_with_openai env W c keyword else [] in
    if nonempty openai_competitors then openai_competitors
    else
      let gemini_competitors :=
        if GEMINI_AVAILABLE G && env_set env "GEMINI_API_KEY"
        then generate_competitors_with_gemini G env W c keyword else [] in
      if nonempty gemini_competitors then gemini_competitors
      else rule_competitors c keyword.

(** the rule-based tail of [generate_related_keywords] *)
Definition rule_related_keywords (c : Call) (keyword : string) (intent : Intent)
    : list string :=
  let raws := raw_random W c in
  let modifiers :=
    match intent with
    | Informational => INFORMATIONAL_MODIFIERS
    | Commercial => COMMERCIAL_MODIFIERS
    | Navigational => NAVIGATIONAL_MODIFIERS
    end in
  let k := 5 `min` length modifiers in
  let variations :=
    (fun modifier => modifier +:+ " " +:+ keyword) <$> sample modifiers k raws 0 in
  let words := Str.split keyword in
  let combinations :=
    if bool_decide (1 < length words) then
      imap (fun i word =>
        let new_words :=
          <[i := choice "best" ["top"; "online"; "professional"; "free"] (raws (k + i))
                 +:+ " " +:+ word]> words in
        Str.join " " new_words) words
    else [] in
  let specific :=
    [keyword +:+ " examples"; keyword +:+ " tools"; keyword +:+ " services";
     keyword +:+ " tips"; keyword +:+ " strategies"] in
  let related_keywords := list_of_set (set_order W c) (variations ++ combinations ++ specific) in
  take (10 `min` length related_keywords) related_keywords.

(** [intent] is [None] for the default argument [""].  On an OpenAI
    answer that is not a list of strings the call can raise, see
    [Raw.generate_related_keywords]. *)
Definition generate_related_keywords (p : path) (keyword : string) (intent : option Intent)
    : list string :=
  let c := {| role := RelatedKeywords; site := p |} in
  let intent :=
    match intent with
    | Some i => i
    | None => determine_intent {| role := RelatedIntent; site := p |} keyword
    end in
  let openai_keywords :=
    if OPENAI_AVAILABLE G && env_set env "OPENAI_API_KEY"
    then generate_related_keywords_with_openai env W c keyword intent else [] in
  if nonempty openai_keywords then take (10 `min` length openai_keywords) openai_keywords
  else
    let gemini_keywords :=
      if GEMINI_AVAILABLE G && env_set env "GEMINI_API_KEY"
      then generate_related_keywords_with_gemini G env W c keyword intent else [] in
    if nonempty gemini_keywords then take (10 `min` length gemini_keywords) gemini_keywords
    else rule_related_keywords c keyword intent.

End Capabilities.

(** ** Provider answers before validation

    Three adapters hand on parts of the decoded answer without checking
    what they are: the OpenAI adapters for related keywords and for
    competitors, and the web-search adapter.  [PyVal] is what
    [json.loads] and [response.json()] can return.  An integer is a [Z]; a
    float is given by a rational number (the non-finite floats that [json]
    also accepts behave like any non-zero float in everything below); the
    entries of a dict are listed in the order of [.items()], with distinct
    keys. *)

#[warnings="-register-all"]
Inductive PyVal :=
  | PyNone
  | PyBool (b : bool)
  | PyInt (z : Z)
  | PyFloat (q : Q)
  | PyStr (s : string)
  | PyList (l : list PyVal)
  | PyDict (items : list (string * PyVal)).

(** a call returns a value, or raises an exception that nothing catches *)
Inductive Outcome (A : Type) :=
  | Returns (a : A)
  | Raises.

Arguments Returns {A} a.
Arguments Raises {A}.

Definition is_raises {A} (o : Outcome A) : bool :=
  match o with Raises => true | Returns _ => false end.

(** [bool(v)] *)
Definition py_truthy (v : PyVal) : bool :=
  match v with
  | PyNone => false
  | PyBool b => b
  | PyInt z => negb (z =? 0)%Z
  | PyFloat q => negb (Qeq_bool q 0)
  | PyStr s => Str.truthy s
  | PyList l => nonempty l
  | PyDict items => nonempty items
  end.

(** [len(v)]: a [TypeError] for [None], a bool or a number *)
Definition py_len (v : PyVal) : Outcome nat :=
  match v with
  | PyStr s => Returns (String.length s)
  | PyList l => Returns (length l)
  | PyDict items => Returns (length items)
  | _ => Raises
  end.

(** [v[:n]]: a str and a list can be sliced; on a dict the slice is taken
    for a key and the lookup raises, on the other values [TypeError] *)
Definition py_slice (n : nat) (v : PyVal) : Outcome PyVal :=
  match v with
  | PyStr s => Returns (PyStr (Str.first_chars n s))
  | PyList l => Returns (PyList (take n l))
  | _ => Raises
  end.

(** the values that have a length and can be sliced *)
Definition sliceable (v : PyVal) : bool :=
  match v with PyStr _ | PyList _ => true | _ => false end.

(** [key in d] and [d[key]], [d.get(key)] *)
Fixpoint dict_get (key : string) (items : list (string * PyVal)) : option PyVal :=
  match items with
  | [] => None
  | (k, v) :: rest => if String.eqb k key then Some v else dict_get key rest
  end.

(** the loop [for key, value in result.items()] of the two OpenAI
    adapters: the first value that is a list and is not empty *)
Fixpoint first_list_value (items : list (string * PyVal)) : option (list PyVal) :=
  match items with
  | [] => None
  | (_, PyList (x :: l)) :: _ => Some (x :: l)
  | _ :: rest => first_list_value rest
  end.

(** the dict [{"title": ..., "url": ...}] of a competitor *)
Definition competitor_dict (title url : PyVal) : PyVal :=
  PyDict [("title", title); ("url", url)].

Definition dict_of_competitor (r : Competitor) : PyVal :=
  competitor_dict (PyStr (comp_title r)) (PyStr (url r)).

(** What the services answer, decoded but not yet looked at: the value of
    [json.loads(response.choices[0].message.content)] for the two OpenAI
    calls, and of [response.json()] for a search request answered with
    status 200.  [None] when the request or the decoding raised, and for
    the search also when the status was not 200. *)
Record Answers := {
  openai_keywords_json : Call -> string -> Intent -> option PyVal;
  openai_competitors_json : Call -> string -> option PyVal;
  google_search_json : Call -> string -> option PyVal;
}.

(** The same capabilities with the answers taken as they come.  The
    adapters of [Section Adapters] for these three calls, which read
    [openai_keywords_reply], [openai_competitors_reply] and
    [google_search_reply], describe the runs in which the answer is an array
    of strings, respectively of title and URL records; the functions below
    describe every run.  Intent and title answers are text that the
    adapters strip and test themselves, and the Gemini adapters build
    their lists from text, so those stay as they are. *)
Module Raw.

Section Unvalidated.
Variable G : Globals.
Variable env : environ.
Variable W : World.
Variable J : Answers.

(** lines 758-805; every exception inside the [try] gives [[]], among them
    the [AttributeError] of [result.items()] when the answer is neither a
    dict nor a list *)
Definition generate_related_keywords_with_openai (c : Call) (keyword : string)
    (intent : Intent) : PyVal :=
  if env_set env "OPENAI_API_KEY" then
    match openai_keywords_json J c keyword intent with
    | None => PyList []
    | Some (PyDict items) =>
        match dict_get "keywords" items with
        | Some value => value
        | None =>
            match first_list_value items with
            | Some value => PyList value
            | None => PyList []
            end
        end
    | Some (PyList l) => PyList l
    | Some _ => PyList []
    end
  else PyList [].

(** lines 541-593; [result["competitors"][:3]] raises inside the [try] when
    the value cannot be sliced *)
Definition generate_competitors_with_openai (c : Call) (keyword : string) : PyVal :=
  if env_set env "OPENAI_API_KEY" then
    match openai_competitors_json J c keyword with
    | None => PyList []
    | Some (PyList l) => PyList (take 3 l)
    | Some (PyDict items) =>
        match dict_get "competitors" items with
        | Some value =>
            match py_slice 3 value with
            | Returns first => first
            | Raises => PyList []
            end
        | None =>
            match first_list_value items with
            | Some value => PyList (take 3 value)
            | None => PyList []
            end
        end
    | Some _ => PyList []
    end
  else PyList [].

(** one round of the loop over [data["items"][:3]]: [item.get] exists on a
    dict only *)
Definition search_record (item : PyVal) : option PyVal :=
  match item with
  | PyDict fields =>
      Some (competitor_dict (default (PyStr "") (dict_get "title" fields))
                            (default (PyStr "") (dict_get "link" fields)))
  | _ => None
  end.

(** lines 595-630.  Only a dict passes [if "items" in data] and
    [data["items"]] without raising, or skips the loop; only a list of
    dicts, or an empty value, passes the loop; whatever raises gives [[]]. *)
Definition generate_competitors_with_google_search (c : Call) (keyword : string)
    : list PyVal :=
  if env_set env "GOOGLE_SEARCH_API_KEY" && env_set env "GOOGLE_SEARCH_CX" then
    match google_search_json J c keyword with
    | Some (PyDict data) =>
        match dict_get "items" data with
        | Some (PyList items) => default [] (mapM search_record (take 3 items))
        | _ => []
        end
    | _ => []
    end
  else [].

(** lines 807-860.  [openai_keywords and len(openai_keywords) > 0] and the
    slice after it are outside any [try]. *)
Definition generate_related_keywords (p : path) (keyword : string)
    (intent : option Intent) : Outcome PyVal :=
  let c := {| role := RelatedKeywords; site := p |} in
  let intent :=
    match intent with
    | Some i => i
    | None => determine_intent G env W {| role := RelatedIntent; site := p |} keyword
    end in
  let after_openai :=
    let gemini_keywords :=
      if GEMINI_AVAILABLE G && env_set env "GEMINI_API_KEY"
      then generate_related_keywords_with_gemini G env W c keyword intent else [] in
    if nonempty gemini_keywords
    then PyList (PyStr <$> take (10 `min` length gemini_keywords) gemini_keywords)
    else PyList (PyStr <$> rule_related_keywords W c keyword intent) in
  if OPENAI_AVAILABLE G && env_set env "OPENAI_API_KEY" then
    let openai_keywords := generate_related_keywords_with_openai c keyword intent in
    if py_truthy openai_keywords then
      match py_len openai_keywords with
      | Raises => Raises
      | Returns n =>
          if bool_decide (0 < n) then py_slice (10 `min` n) openai_keywords
          else Returns after_openai
      end
    else Returns after_openai
  else Returns after_openai.

(** lines 632-675 *)
Definition generate_competitors (c : Call) (keyword : string) : Outcome PyVal :=
  let after_openai :=
    let gemini_competitors :=
      if GEMINI_AVAILABLE G && env_set env "GEMINI_API_KEY"
      then generate_competitors_with_gemini G env W c keyword else [] in
    if nonempty gemini_competitors then PyList (dict_of_competitor <$> gemini_competitors)
    else PyList (dict_of_competitor <$> rule_competitors W c keyword) in
  let after_search :=
    if OPENAI_AVAILABLE G && env_set env "OPENAI_API_KEY" then
      let openai_competitors := generate_competitors_with_openai c keyword in
      if py_truthy openai_competitors then
        match py_len openai_competitors with
        | Raises => Raises
        | Returns n =>
            if bool_decide (0 < n) then Returns openai_competitors
            else Returns after_openai
        end
      else Returns after_openai
    else Returns after_openai in
  let search_competitors :=
    if GOOGLE_SEARCH_AVAILABLE G
    then generate_competitors_with_google_search c keyword else [] in
  if nonempty search_competitors then Returns (PyList search_competitors)
  else after_search.

End Unvalidated.

End Raw.

(** the answers of a run in which the three services reply in the form
    the prompts ask for: a JSON object with the array of strings under
    "keywords", one with the array of title and URL records under
    "competitors", and search items with a title and a link *)
Definition search_item (r : Competitor) : PyVal :=
  PyDict [("title", PyStr (comp_title r)); ("link", PyStr (url r))].

Definition answers_of (W : World) : Answers :=
  {| openai_keywords_json := fun c keyword intent =>
       Some (PyDict [("keywords", PyList (PyStr <$> openai_keywords_reply W c keyword intent))]);
     openai_competitors_json := fun c keyword =>
       Some (PyDict [("competitors",
               PyList (dict_of_competitor <$> openai_competitors_reply W c keyword))]);
     google_search_json := fun c keyword =>
       Some (PyDict [("items", PyList (search_item <$> google_search_reply W c keyword))]) |}.

(** ** Keyword nodes

    A node is a Python dict; its ["children"] entry is a list object that is
    appended to after the node has already been appended to its parent's
    list.  The dicts therefore live in a heap and are linked by reference;
    the nested value the caller receives is read back from the heap. *)

Record NodeData := {
  keyword : string;
  intent : Intent;
  title : string;
  word_count : nat;
  competitors : list Competitor;
}.

(** the nested dictionary as a value *)
#[warnings="-register-all"]
Inductive Node := mkNode { data : NodeData; children : list Node }.

Abbreviation ref := nat.

Record Obj := { fields : NodeData; kids : list ref }.

Abbreviation Heap := (list Obj).

(** computations that read and update the heap *)
Definition M (A : Type) : Type := Heap -> A * Heap.

Definition ret {A} (x : A) : M A := fun h => (x, h).

Definition bind {A B} (m : M A) (f : A -> M B) : M B :=
  fun h => let (x, h') := m h in f x h'.

Declare Scope heap_scope.
Delimit Scope heap_scope with heap.
Notation "x <- m ;; k" := (bind m (fun x => k))
  (at level 100, m at next level, right associativity) : heap_scope.
Notation "m ;;; k" := (bind m (fun _ => k))
  (at level 100, right associativity) : heap_scope.

(** a new dict with an empty ["children"] list *)
Definition new_node (d : NodeData) : M ref :=
  fun h => (length h, h ++ [{| fields := d; kids := [] |}]).

Definition add_kid (child : ref) (o : Obj) : Obj :=
  {| fields := fields o; kids := kids o ++ [child] |}.

(** [parent["children"].append(child)] *)
Definition append_child (parent child : ref) : M unit :=
  fun h => (tt, alter (add_kid child) parent h).

(** [for i, x in enumerate(l, start): body] *)
Fixpoint for_each_from {A} (start : nat) (l : list A) (body : nat -> A -> M unit) : M unit :=
  match l with
  | [] => ret tt
  | x :: l' => (body start x ;;; for_each_from (S start) l' body)%heap
  end.

Definition for_each {A} (l : list A) (body : nat -> A -> M unit) : M unit :=
  for_each_from 0 l body.

(** the nested value below reference [r]; [None] if a reference dangles or
    the fuel runs out *)
Fixpoint read (fuel : nat) (h : Heap) (r : ref) : option Node :=
  match fuel with
  | 0 => None
  | S fuel' =>
      o ← h !! r;
      ts ← mapM (read fuel' h) (kids o);
      Some (mkNode (fields o) ts)
  end.

(** ** The tree builder *)

(** the nested dictionary a caller holds after running [prog] in a process
    whose heap held no node before *)
Definition tree_of (prog : M ref) : option Node :=
  let (r, h) := prog [] in read (length h) h r.

Section TreeBuilder.
Variable G : Globals.
Variable env : environ.
Variable W : World.

(** the entries of the dict built by [generate_keyword_node], apart from
    ["children"]; [random.choice(INTENTS)] for the root *)
Definition node_data (p : path) (keyword : string) (is_root : bool)
    (custom_prompt : string) : NodeData :=
  let intent :=
    if is_root then
      choice Commercial [Informational; Navigational]
        (raw_random W {| role := NodeIntent; site := p |} 0)
    else determine_intent G env W {| role := NodeIntent; site := p |} keyword in
  {| keyword := keyword;
     intent := intent;
     title := generate_title G env W {| role := NodeTitle; site := p |}
                keyword intent custom_prompt;
     word_count := recommend_word_count W {| role := NodeWordCount; site := p |} intent;
     competitors := generate_competitors G env W {| role := NodeCompetitors; site := p |}
                      keyword |}.

Definition generate_keyword_node (p : path) (keyword : string) (is_root : bool)
    (custom_prompt : string) : M ref :=
  new_node (node_data p keyword is_root custom_prompt).

(** The body of [generate_keyword_structure].  [related p keyword] stands
    for the call [generate_related_keywords(keyword)] made for the node at
    [p], so that the loops can be studied for any list that call may
    return. *)
Definition build_keyword_structure (related : path -> string -> list string)
    (main_keyword : string) (depth : Z) (custom_prompt : string) : M ref :=
  (keyword_structure <- generate_keyword_node [] main_keyword true custom_prompt ;;
   let first_level_keywords := related [] main_keyword in
   for_each first_level_keywords (fun i keyword =>
     child_node <- generate_keyword_node [i] keyword false custom_prompt ;;
     append_child keyword_structure child_node ;;;
     if bool_decide (depth >= 2)%Z then
       let second_level_keywords := take 3 (related [i] keyword) in
       for_each second_level_keywords (fun j sub_keyword =>
         sub_node <- generate_keyword_node [i; j] sub_keyword false custom_prompt ;;
         append_child child_node sub_node ;;;
         if bool_decide (depth >= 3)%Z then
           let third_level_keywords := take 2 (related [i; j] sub_keyword) in
           for_each third_level_keywords (fun k sub_sub_keyword =>
             sub_sub_node <-
               generate_keyword_node [i; j; k] sub_sub_keyword false custom_prompt ;;
             append_child sub_node sub_sub_node ;;;
             ret tt)
         else ret tt)
     else ret tt) ;;;
   ret keyword_structure)%heap.

Definition generate_keyword_structure (main_keyword : string) (depth : Z)
    (custom_prompt : string) : M ref :=
  build_keyword_structure
    (fun p keyword => generate_related_keywords G env W p keyword None)
    main_keyword depth custom_prompt.

(** what the caller of [generate_keyword_structure] receives *)
Definition keyword_tree (main_keyword : string) (depth : Z) (custom_prompt : string)
    : option Node :=
  tree_of (generate_keyword_structure main_keyword depth custom_prompt).

End TreeBuilder.

(** ** The tree as a value

    The same tree written as one expression, children first; it is shown
    below to be what the heap program leaves behind. *)

Section TreeValue.
Variable G : Globals.
Variable env : environ.
Variable W : World.
Variable related : path -> string -> list string.
Variable depth : Z.
Variable custom_prompt : string.

Definition third_level (i j : nat) (sub_keyword : string) : list Node :=
  if bool_decide (depth >= 3)%Z then
    imap (fun k sub_sub_keyword =>
            mkNode (node_data G env W [i; j; k] sub_sub_keyword false custom_prompt) [])
         (take 2 (related [i; j] sub_keyword))
  else [].

Definition second_level (i : nat) (keyword : string) : list Node :=
  if bool_decide (depth >= 2)%Z then
    imap (fun j sub_keyword =>
            mkNode (node_data G env W [i; j] sub_keyword false custom_prompt)
                   (third_level i j sub_keyword))
         (take 3 (related [i] keyword))
  else [].

Definition first_level (main_keyword : string) : list Node :=
  imap (fun i keyword =>
          mkNode (node_data G env W [i] keyword false custom_prompt)
                 (second_level i keyword))
       (related [] main_keyword).

Definition structure_value (main_keyword : string) : Node :=
  mkNode (node_data G env W [] main_keyword true custom_prompt)
         (first_level main_keyword).

End TreeValue.

(** [tree_at h r t]: in heap [h] the dict at [r] and the dicts reachable from
    it spell out the value [t]; children are younger than their parent. *)
#[warnings="-register-all"]
Inductive tree_at (h : Heap) : ref -> Node -> Prop :=
  | tree_at_intro r d ks ts :
      h !! r = Some {| fields := d; kids := ks |} ->
      Forall (fun k => r < k) ks ->
      Forall2 (tree_at h) ks ts ->
      tree_at h r (mkNode d ts).

(** ** Measuring trees *)

(** number of levels below the root *)
Fixpoint height (t : Node) : nat :=
  match t with
  | mkNode _ ts => max_list_with (fun t' => S (height t')) ts
  end.

(** the nodes [n] levels below the root, left to right *)
Fixpoint level (n : nat) (t : Node) : list Node :=
  match n with
  | 0 => [t]
  | S n' => children t ≫= level n'
  end.

(** the node reached from the root by the child indices [p] *)
Fixpoint subtree (p : path) (t : Node) : option Node :=
  match p with
  | [] => Some t
  | i :: p' => children t !! i ≫= subtree p'
  end.

(** every node of the tree, parents before children *)
Fixpoint all_nodes (t : Node) : list Node :=
  match t with
  | mkNode _ ts => t :: (ts ≫= all_nodes)
  end.

(** the depth of every node of the tree, in the order of [all_nodes], for a
    root at depth [depth] *)
Fixpoint node_depths (depth : nat) (t : Node) : list nat :=
  match t with
  | mkNode _ ts => depth :: (ts ≫= node_depths (S depth))
  end.

(** the tree with every title blanked *)
Fixpoint erase_titles (t : Node) : Node :=
  match t with
  | mkNode d ts =>
      mkNode {| keyword := keyword d; intent := intent d; title := "";
                word_count := word_count d; competitors := competitors d |}
             (erase_titles <$> ts)
  end.

Definition is_leaf (t : Node) : Prop := children t = [].

(** branching caps: at most [cap1], 3 and 2 children on the three levels,
    grandchildren only from depth 2, great-grandchildren only from depth 3,
    nothing below *)
Definition respects_caps (cap1 : nat) (depth : Z) (t : Node) : Prop :=
  length (children t) <= cap1 /\
  Forall (fun c1 =>
    length (children c1) <= 3 /\
    ((depth < 2)%Z -> is_leaf c1) /\
    Forall (fun c2 =>
      length (children c2) <= 2 /\
      ((depth < 3)%Z -> is_leaf c2) /\
      Forall is_leaf (children c2)) (children c1)) (children t).

(** the depth the builder works to *)
Definition effective_depth (depth : Z) : nat := Z.to_nat (Z.min (Z.max depth 1) 3).

(** the word-count range of an intent, both ends included *)
Definition word_count_range (i : Intent) : nat * nat :=
  match i with
  | Informational => (1500, 2500)
  | Commercial => (1200, 2000)
  | Navigational => (800, 1500)
  end.

Definition word_count_in_range (d : NodeData) : Prop :=
  (word_count_range (intent d)).1 <= word_count d <= (word_count_range (intent d)).2.

(** [records] are exactly three competitor records, built from pairwise
    distinct domains of [DOMAINS], the URL of each being
    ["https://www.<domain>/"], the slug of the keyword, and [ending] *)
Definition three_mock_competitors (ending : string) (keyword : string)
    (records : list Competitor) : Prop :=
  exists domains : list string,
    length domains = 3 /\ NoDup domains /\ domains ⊆ DOMAINS /\
    url <$> records =
      (fun domain => "https://www." +:+ domain +:+ "/" +:+ slug_of keyword +:+ ending)
        <$> domains.

(** ** The specification's wording, for comparison *)

(** Fallback resolver: take the offers of the optional providers in
    priority order, accept the first usable one, else the rule engine's
    result. *)
Fixpoint resolve {A} (usable : A -> bool) (offers : list A) (rule_engine : A) : A :=
  match offers with
  | [] => rule_engine
  | offer :: rest => if usable offer then offer else resolve usable rest rule_engine
  end.

(** what an optional provider contributes: its adapter's answer when the
    cascade consults it, the empty answer otherwise *)
Definition offer {A} (consulted : bool) (answer empty : A) : A :=
  if consulted then answer else empty.

(** a provider's keyword or competitor answer is usable when it is a list
    that is not empty *)
Definition nonempty_list (v : PyVal) : bool :=
  match v with PyList (_ :: _) => true | _ => false end.

(** [classify_intent]: commercial indicators first, then the navigational
    ones, by substring match on the lower-cased keyword; Informational when
    nothing matches *)
Definition classify_intent (keyword : string) : Intent :=
  if existsb (fun term => Str.contains term (Str.lower keyword)) commercial_indicators
  then Commercial
  else if existsb (fun term => Str.contains term (Str.lower keyword)) navigational_indicators
  then Navigational
  else Informational.

(** ** Sample surroundings *)

(** no package installed, no credential set *)
Definition bare_globals : Globals := import_module false false ∅.

(** every raw number is [0], every provider is silent *)
Definition quiet_world : World :=
  {| raw_random := fun _ _ => 0;
     set_order := fun _ _ => 0;
     current_year := 2025;
     openai_intent_reply := fun _ _ => None;
     gemini_intent_reply := fun _ _ => None;
     openai_title_reply := fun _ _ _ _ => "";
     gemini_endpoint_title_reply := fun _ _ _ _ => "";
     gemini_title_reply := fun _ _ _ _ => "";
     openai_keywords_reply := fun _ _ _ => [];
     gemini_keywords_reply := fun _ _ _ => [];
     google_search_reply := fun _ _ => [];
     openai_competitors_reply := fun _ _ => [];
     gemini_competitors_reply := fun _ _ => [] |}.


(** the search credentials entered after the module was imported *)
Definition search_env : environ :=
  <["GOOGLE_SEARCH_API_KEY" := "key"]> (<["GOOGLE_SEARCH_CX" := "cx"]> ∅).

Definition openai_env : environ := <["OPENAI_API_KEY" := "sk"]> ∅.

Definition live_result : Competitor :=
  {| comp_title := "Live result"; url := "https://live.example/seo" |}.

(** a world in which every competitor service answers with [live_result] *)
Definition live_world : World :=
  {| raw_random := fun _ _ => 0;
     set_order := fun _ _ => 0;
     current_year := 2025;
     openai_intent_reply := fun _ _ => None;
     gemini_intent_reply := fun _ _ => None;
     openai_title_reply := fun _ _ _ _ => "";
     gemini_endpoint_title_reply := fun _ _ _ _ => "";
     gemini_title_reply := fun _ _ _ _ => "";
     openai_keywords_reply := fun _ _ _ => [];
     gemini_keywords_reply := fun _ _ _ => [];
     google_search_reply := fun _ _ => [live_result];
     openai_competitors_reply := fun _ _ => [live_result];
     gemini_competitors_reply := fun _ _ => [live_result] |}.

(** an answer of the keyword service that groups the keywords instead of
    listing them: [{"keywords": {"primary": ["seo tips"]}}] *)
Definition grouped_keywords : PyVal :=
  PyDict [("keywords", PyDict [("primary", PyList [PyStr "seo tips"])])].

Definition grouped_answers : Answers :=
  {| openai_keywords_json := fun _ _ _ => Some grouped_keywords;
     openai_competitors_json := fun _ _ => None;
     google_search_json := fun _ _ => None |}.

(** ** The graph for the mind map ([data_processor.py]) *)

(** [re.sub(r'[^a-zA-Z0-9]', '_', text)] *)
Definition clean_id (text : string) : string :=
  Str.map_chars (fun c => if Str.isalnum c then c else "_"%char) text.

(** the keyword arguments [id], [label], [size], [color], [title] given to
    [Node], and [source], [target] given to [Edge] *)
Record AgraphNode := {
  agraph_id : string;
  agraph_label : string;
  agraph_size : nat;
  agraph_color : string;
  agraph_title : string;
}.

Record AgraphEdge := { source : string; target : string }.

(** the three objects the closure [process_node] updates *)
Record VisState := {
  nodes : list AgraphNode;
  edges : list AgraphEdge;
  used_ids : gset string;
}.

(** the intent as the string stored in the node dict *)
Definition intent_name (i : Intent) : string :=
  match i with
  | Commercial => "Commercial"
  | Informational => "Informational"
  | Navigational => "Navigational"
  end.

Definition intent_color (i : Intent) : string :=
  match i with
  | Commercial => "#4CAF50"
  | Informational => "#2196F3"
  | Navigational => "#FFC107"
  end.

(** [while node_id in used_ids: node_id = f"{base_id}_{counter}"; counter += 1],
    entered with the current [node_id] and [counter]; [None] when the fuel
    does not last until a free id is met *)
Fixpoint unique_id_loop (fuel : nat) (used : gset string) (base_id node_id : string)
    (counter : nat) : option string :=
  match fuel with
  | 0 => None
  | S fuel' =>
      if bool_decide (node_id ∈ used) then
        unique_id_loop fuel' used base_id (base_id +:+ "_" +:+ Str.of_nat counter) (S counter)
      else Some node_id
  end.

(** the id chosen for a node: [base_id] itself or the first free
    [base_id_1], [base_id_2], ... *)
Definition unique_id (used : gset string) (base_id : string) : option string :=
  unique_id_loop (size used + 2) used base_id base_id 1.

(** the tooltip of a node *)
Definition tooltip_of (d : NodeData) : string :=
  let tooltip :=
    "Intent: " +:+ intent_name (intent d) +:+ Str.newline +:+
    "Word Count: " +:+ Str.of_nat (word_count d) +:+ Str.newline +:+
    "Title: " +:+ title d in
  if nonempty (competitors d) then
    foldl (fun tooltip comp => tooltip +:+ Str.newline +:+ "• " +:+ comp_title comp)
          (tooltip +:+ Str.newline +:+ Str.newline +:+ "Top Competitors:")
          (take 3 (competitors d))
  else tooltip.

(** [parent_id] is [None] for the default argument; an edge is added only
    for a parent id that is a true value, that is a non-empty string *)
Fixpoint process_node (node : Node) (parent_id : option string) (depth : nat)
    (st : VisState) : option VisState :=
  match node with
  | mkNode d node_children =>
      let base_id := clean_id (keyword d) in
      node_id ← unique_id (used_ids st) base_id;
      let color := intent_color (intent d) in
      let size := if bool_decide (depth = 0) then 15
                  else if bool_decide (depth = 1) then 12 else 10 in
      let st1 :=
        {| nodes := nodes st ++
                    [{| agraph_id := node_id; agraph_label := keyword d;
                        agraph_size := size; agraph_color := color;
                        agraph_title := tooltip_of d |}];
           edges := match parent_id with
                    | Some p =>
                        if Str.truthy p
                        then edges st ++ [{| source := p; target := node_id |}]
                        else edges st
                    | None => edges st
                    end;
           used_ids := {[node_id]} ∪ used_ids st |} in
      (fix process_children (cs : list Node) (st : VisState) : option VisState :=
         match cs with
         | [] => Some st
         | child :: cs' =>
             st' ← process_node child (Some node_id) (S depth) st;
             process_children cs' st'
         end) node_children st1
  end.

Definition process_data_for_visualization (keyword_data : Node)
    : option (list AgraphNode * list AgraphEdge) :=
  st ← process_node keyword_data None 0 {| nodes := []; edges := []; used_ids := ∅ |};
  Some (nodes st, edges st).

(** ** The exports ([app.py]) *)

(** one line of the CSV export *)
Definition csv_row (d : NodeData) : string :=
  keyword d +:+ "," +:+ intent_name (intent d) +:+ "," +:+ Str.of_nat (word_count d)
  +:+ "," +:+ Str.dquote +:+ title d +:+ Str.dquote.

(** the closure [extract_keywords]; [acc] holds [all_keywords] and
    [all_keywords_with_intent] *)
Fixpoint extract_keywords (node : Node) (depth : nat) (path : string)
    (acc : list string * list string) : list string * list string :=
  match node with
  | mkNode d node_children =>
      let current_path :=
        if Str.truthy path then path +:+ " > " +:+ keyword d else keyword d in
      let acc1 := (acc.1 ++ [keyword d], acc.2 ++ [csv_row d]) in
      foldl (fun acc child => extract_keywords child (S depth) current_path acc)
            acc1 node_children
  end.

(** the two lists after [extract_keywords(keyword_data)] *)
Definition extracted (keyword_data : Node) : list string * list string :=
  extract_keywords keyword_data 0 "" ([], []).

Definition keywords_text (keyword_data : Node) : string :=
  Str.join Str.newline (extracted keyword_data).1.

Definition csv_text (keyword_data : Node) : string :=
  "Keyword,Intent,Word Count,Title" +:+ Str.newline +:+
  Str.join Str.newline (extracted keyword_data).2.

(** ** What the adapters do with a provider's answer *)

(** [determine_intent_with_openai] and [determine_intent_with_gemini] on the
    stripped text [result] of the answer: the first category word found,
    in the order commercial, navigational, informational *)
Definition parse_intent_answer (result : string) : option Intent :=
  if Str.contains "commercial" (Str.lower result) then Some Commercial
  else if Str.contains "navigational" (Str.lower result) then Some Navigational
  else if Str.contains "informational" (Str.lower result) then Some Informational
  else None.

(** [generate_related_keywords_with_gemini] on the text of the answer:
    [[k.strip() for k in text.split(',') if k.strip()][:10]] *)
Definition parse_keyword_list (text : string) : list string :=
  take 10 (filter (fun k => Str.truthy k) (Str.strip <$> Str.split_on "," text)).

(** one round of the loop over the lines in [generate_competitors_with_gemini];
    the state is [title], [url] and [competitors] *)
Definition competitor_line (st : string * string * list Competitor) (line : string)
    : string * string * list Competitor :=
  let '(title, url, competitors) := st in
  let line := Str.strip line in
  if String.prefix "Title" line && Str.contains ":" line then
    (Str.strip (Str.after_first ":" line), url, competitors)
  else if String.prefix "URL" line && Str.contains ":" line then
    let url := Str.strip (Str.after_first ":" line) in
    if Str.truthy title && Str.truthy url then
      ("", "", competitors ++ [{| comp_title := title; url := url |}])
    else (title, url, competitors)
  else (title, url, competitors).

(** [generate_competitors_with_gemini] on the text of the answer *)
Definition parse_competitor_listing (text : string) : list Competitor :=
  take 3 (foldl competitor_line ("", "", []) (Str.split_on (ascii_of_nat 10) text)).2.

(** the listing the prompt asks for: ["Title i: ..."], ["URL i: ..."] and
    an empty line for each record, numbered from [i] *)
Fixpoint competitor_listing (i : nat) (records : list Competitor) : string :=
  match records with
  | [] => ""
  | r :: records' =>
      "Title " +:+ Str.of_nat i +:+ ": " +:+ comp_title r +:+ Str.newline +:+
      "URL " +:+ Str.of_nat i +:+ ": " +:+ url r +:+ Str.newline +:+ Str.newline +:+
      competitor_listing (S i) records'
  end.

(** ** The connection tests *)

(** how a call to a service ends *)
Inductive CallOutcome :=
  | Completed
  | Raised (error : string).

(** how the request to the direct Gemini endpoint ends *)
Inductive EndpointOutcome :=
  | Responded (status_code : nat) (text : string)
  | Failed (error : string).

Record TestResult := { success : bool; message : string }.

Definition test_openai_connection (G : Globals) (env : environ) (call : CallOutcome)
    : TestResult :=
  if negb (env_set env "OPENAI_API_KEY") then
    {| success := false; message := "No OpenAI API key provided" |}
  else if OPENAI_AVAILABLE G then
    match call with
    | Completed =>
        {| success := true; message := "Successfully connected to OpenAI API" |}
    | Raised e =>
        let error_str := Str.lower e in
        if Str.contains "429" error_str || Str.contains "quota" error_str
           || Str.contains "rate limit" error_str || Str.contains "capacity" error_str then
          {| success := true;
             message := "Connected to OpenAI API, but rate limit or quota reached. Your API key is valid but you may need to wait before making more requests." |}
        else if Str.contains "auth" error_str || Str.contains "key" error_str
                || Str.contains "invalid" error_str then
          {| success := false;
             message := "Authentication error: " +:+ Str.first_chars 100 e +:+ "..." |}
        else
          {| success := false;
             message := "Failed to connect to OpenAI API: " +:+ Str.first_chars 100 e +:+ "..." |}
    end
  else {| success := false; message := "OpenAI package not available" |}.

Definition test_gemini_connection (G : Globals) (env : environ) (call : CallOutcome)
    (endpoint : EndpointOutcome) : TestResult :=
  if negb (env_set env "GEMINI_API_KEY") then
    {| success := false; message := "No Gemini API key provided" |}
  else if GEMINI_AVAILABLE G then
    match call with
    | Completed =>
        {| success := true; message := "Successfully connected to Gemini API" |}
    | Raised e =>
        let error_str := Str.lower e in
        if Str.contains "429" error_str || Str.contains "quota" error_str
           || Str.contains "rate limit" error_str
           || Str.contains "resource exhausted" error_str then
          {| success := true;
             message := "Connected to Gemini API, but quota limit reached. Your API key is valid but you may need to wait before making more requests." |}
        else
          match endpoint with
          | Responded status_code text =>
              if bool_decide (status_code = 200) then
                {| success := true;
                   message := "Successfully connected to Gemini API (using direct endpoint)" |}
              else if bool_decide (status_code = 429) then
                {| success := true;
                   message := "Connected to Gemini API, but quota limit reached. Your API key is valid but you may need to wait before making more requests." |}
              else
                {| success := false;
                   message := "Failed to connect to Gemini API endpoint: HTTP "
                              +:+ Str.of_nat status_code +:+ " - "
                              +:+ Str.first_chars 100 text +:+ "..." |}
          | Failed e2 =>
              {| success := false;
                 message := "Failed to connect to Gemini API: " +:+ Str.first_chars 100 e
                            +:+ "..., Direct endpoint error: "
                            +:+ Str.first_chars 100 e2 +:+ "..." |}
          end
    end
  else {| success := false; message := "Google Generative AI package not available" |}.

(** every character of [s] passes the test [p] *)
Fixpoint all_chars (p : ascii -> bool) (s : string) : bool :=
  match s with
  | EmptyString => true
  | String c s' => p c && all_chars p s'
  end.

(** a small tree: a seed with two children, one of them with a child *)
Definition leaf_data (kw : string) : NodeData :=
  {| keyword := kw; intent := Informational; title := "T"; word_count := 1500;
     competitors := [] |}.

Definition small_tree (seed : string) : Node :=
  mkNode (leaf_data seed)
    [mkNode (leaf_data "seo tips") [mkNode (leaf_data "seo tips") []];
     mkNode (leaf_data "seo-tips") []].

(** * Properties *)

(** ** Reading trees back from the heap *)

Lemma Node_induction (P : Node -> Prop) :
  (forall d ts, Forall P ts -> P (mkNode d ts)) -> forall t, P t.
Proof.
  intros step. fix IH 1. intros [d ts]. apply step.
  induction ts as [|t ts IHts]; constructor; [apply IH | exact IHts].
Qed.

(** A tree is not disturbed by changes to older dicts or by new ones. *)
Lemma tree_at_frame h h' t : forall r,
  tree_at h r t ->
  (forall i, r <= i -> i < length h -> h' !! i = h !! i) ->
  tree_at h' r t.
Proof.
  induction t as [d ts IH] using Node_induction. intros r Ht Hsame.
  inversion Ht as [r' d' ks ts' Hr Hks Hts]; subst.
  apply tree_at_intro with ks; [| exact Hks |].
  - rewrite Hsame; [exact Hr | lia | by eapply lookup_lt_Some].
  - clear Hr Ht. induction Hts as [|k t ks ts Hkt Hrest IHrest]; constructor.
    + apply Forall_cons in IH as [IHt _]. apply Forall_cons in Hks as [Hk _].
      apply IHt; [exact Hkt |]. intros i Hi Hlt. apply Hsame; lia.
    + apply Forall_cons in IH as [_ IH]. apply Forall_cons in Hks as [_ Hks]. auto.
Qed.

(** With fuel for every dict between [r] and the end of the heap, [read]
    returns the tree. *)
Lemma tree_at_read h t : forall r fuel,
  tree_at h r t -> length h - r <= fuel -> read fuel h r = Some t.
Proof.
  induction t as [d ts IH] using Node_induction. intros r fuel Ht Hfuel.
  inversion Ht as [r' d' ks ts' Hr Hks Hts]; subst.
  pose proof (lookup_lt_Some _ _ _ Hr) as Hlt.
  destruct fuel as [|fuel]; [lia |]. simpl. rewrite Hr. simpl.
  assert (mapM (read fuel h) ks = Some ts) as ->; [| reflexivity].
  apply mapM_Some. clear Hr Ht.
  induction Hts as [|k t ks ts Hkt Hrest IHrest]; constructor.
  - apply Forall_cons in IH as [IHt _]. apply Forall_cons in Hks as [Hk _].
    apply IHt; [exact Hkt | lia].
  - apply Forall_cons in IH as [_ IH]. apply Forall_cons in Hks as [_ Hks]. auto.
Qed.

Lemma for_each_from_cons {A} start (x : A) l body h :
  for_each_from start (x :: l) body h =
  for_each_from (S start) l body (body start x h).2.
Proof. simpl. unfold bind. by destruct (body start x h) as [[] h']. Qed.

(** What a loop does that creates one child per element, appends it to
    [parent] and then lets [body] fill the child in: [body] may touch the
    child it is given and create new dicts, nothing else. *)
Definition fills {A} (mk : nat -> A -> NodeData) (subtrees : nat -> A -> list Node)
    (body : nat -> A -> ref -> M unit) : Prop :=
  forall i x g c,
    g !! c = Some {| fields := mk i x; kids := [] |} -> S c = length g ->
    length g <= length (body i x c g).2 /\
    (forall j, j < c -> (body i x c g).2 !! j = g !! j) /\
    tree_at (body i x c g).2 c (mkNode (mk i x) (subtrees i x)).

Lemma attach_loop {A} (l : list A) : forall mk subtrees body start h parent d ks,
  fills mk subtrees body ->
  h !! parent = Some {| fields := d; kids := ks |} ->
  Forall (fun k => parent < k) ks ->
  let h' := (for_each_from start l (fun i x =>
               c <- new_node (mk i x) ;; append_child parent c ;;; body i x c)%heap h).2 in
  length h <= length h' /\
  (forall j, j < length h -> j <> parent -> h' !! j = h !! j) /\
  exists refs,
    h' !! parent = Some {| fields := d; kids := ks ++ refs |} /\
    Forall (fun k => parent < k) refs /\
    Forall2 (tree_at h') refs
      (imap (fun i x => mkNode (mk (start + i) x) (subtrees (start + i) x)) l).
Proof.
  induction l as [|x l IH]; intros mk subtrees body start h parent d ks Hbody Hp Hks.
  - simpl. split; [lia |]. split; [done |]. exists []. rewrite app_nil_r. by repeat split.
  - pose proof (lookup_lt_Some _ _ _ Hp) as Hplt.
    rewrite for_each_from_cons. cbv beta.
    set (c := length h).
    set (h2 := alter (add_kid c) parent (h ++ [{| fields := mk start x; kids := [] |}])).
    replace ((c0 <- new_node (mk start x) ;; append_child parent c0 ;;; body start x c0)%heap h)
      with (body start x c h2) by reflexivity.
    assert (Hc2 : h2 !! c = Some {| fields := mk start x; kids := [] |}).
    { unfold h2. rewrite list_lookup_alter_ne by (unfold c; lia).
      rewrite lookup_app_r by (unfold c; lia).
      unfold c. by rewrite Nat.sub_diag. }
    assert (Hlen2 : S c = length h2).
    { unfold h2. rewrite length_alter, length_app. simpl. unfold c. lia. }
    destruct (Hbody start x h2 c Hc2 Hlen2) as (Hlen3 & Hsame3 & Htree3).
    set (h3 := (body start x c h2).2) in *.
    assert (Hp3 : h3 !! parent = Some {| fields := d; kids := (ks ++ [c]) |}).
    { rewrite Hsame3 by (unfold c; lia). unfold h2.
      rewrite list_lookup_alter, lookup_app_l, Hp by lia. by case_decide. }
    assert (Hks3 : Forall (fun k => parent < k) (ks ++ [c])).
    { apply Forall_app. split; [done |]. by apply Forall_singleton. }
    destruct (IH mk subtrees body (S start) h3 parent d (ks ++ [c]) Hbody Hp3 Hks3)
      as (Hlen & Hsame & refs & Hp' & Hrefs & Htrees).
    cbv zeta. split; [fold c; lia |]. split.
    + intros j Hj Hjp. rewrite Hsame by lia. rewrite Hsame3 by (unfold c; lia).
      unfold h2. rewrite list_lookup_alter_ne by lia. by rewrite lookup_app_l by lia.
    + exists (c :: refs). split; [by rewrite Hp', <- app_assoc |].
      split; [by constructor |]. simpl. rewrite Nat.add_0_r. constructor.
      * eapply tree_at_frame; [exact Htree3 |].
        intros i Hi Hlt. apply Hsame; lia.
      * erewrite imap_ext; [exact Htrees |].
        intros i y _. simpl. by rewrite Nat.add_succ_r.
Qed.

Lemma leaf_fills {A} (mk : nat -> A -> NodeData) :
  fills mk (fun _ _ => []) (fun _ _ _ => ret tt).
Proof.
  intros i x g c Hc Hlen. simpl. split; [lia |]. split; [done |].
  by apply tree_at_intro with [].
Qed.

(** A guarded inner loop fills the child it is run for. *)
Lemma nested_fills {A B} (b : bool) (mk : nat -> A -> NodeData) (inner : nat -> A -> list B)
    (mk' : nat -> A -> nat -> B -> NodeData) subtrees' body' :
  (forall i x, fills (mk' i x) (subtrees' i x) (body' i x)) ->
  fills mk
    (fun i x =>
       if b then imap (fun j y => mkNode (mk' i x j y) (subtrees' i x j y)) (inner i x)
       else [])
    (fun i x c =>
       if b then
         for_each (inner i x) (fun j y =>
           c' <- new_node (mk' i x j y) ;; append_child c c' ;;; body' i x j y c')%heap
       else ret tt).
Proof.
  intros Hinner i x g c Hc Hlen. destruct b.
  - destruct (attach_loop (inner i x) (mk' i x) (subtrees' i x) (body' i x) 0 g c
                (mk i x) [] (Hinner i x) Hc (Forall_nil_2 _))
      as (Hlen' & Hsame & refs & Hc' & Hrefs & Htrees).
    unfold for_each. split; [exact Hlen' |]. split.
    + intros j Hj. apply Hsame; lia.
    + by apply tree_at_intro with refs.
  - by apply leaf_fills.
Qed.

(** The heap program builds the tree [structure_value]. *)
Lemma build_keyword_structure_value G env W related main_keyword depth custom_prompt :
  tree_of (build_keyword_structure G env W related main_keyword depth custom_prompt) =
  Some (structure_value G env W related depth custom_prompt main_keyword).
Proof.
  unfold tree_of, build_keyword_structure, generate_keyword_node.
  set (first := related [] main_keyword).
  set (root := node_data G env W [] main_keyword true custom_prompt).
  set (h0 := [{| fields := root; kids := [] |}]).
  pose (mk1 := fun (i : nat) (keyword : string) =>
                 node_data G env W [i] keyword false custom_prompt).
  pose (mk2 := fun (i : nat) (_ : string) (j : nat) (sub_keyword : string) =>
                 node_data G env W [i; j] sub_keyword false custom_prompt).
  pose (mk3 := fun (i : nat) (_ : string) (j : nat) (_ : string) (k : nat) (kw : string) =>
                 node_data G env W [i; j; k] kw false custom_prompt).
  pose (kws2 := fun (i : nat) (keyword : string) => take 3 (related [i] keyword)).
  pose (kws3 := fun (i : nat) (_ : string) (j : nat) (sub_keyword : string) =>
                  take 2 (related [i; j] sub_keyword)).
  pose proof (fun i x => nested_fills (bool_decide (depth >= 3)%Z) (mk2 i x) (kws3 i x)
                           (mk3 i x) _ _ (fun j y => leaf_fills (mk3 i x j y))) as H3.
  pose proof (nested_fills (bool_decide (depth >= 2)%Z) mk1 kws2 mk2 _ _ H3) as H2.
  destruct (attach_loop first mk1 _ _ 0 h0 0 root [] H2 eq_refl (Forall_nil_2 _))
    as (Hlen & _ & refs & Hroot & Hrefs & Htrees).
  unfold bind at 1. unfold new_node at 1. simpl length. simpl app. fold h0.
  unfold bind at 1. unfold for_each at 1.
  match goal with
  | H : context [for_each_from 0 first ?body h0] |- context [for_each_from 0 first ?body' h0] =>
      change body' with body
  end.
  destruct (for_each_from 0 first _ h0) as [[] h'] eqn:Hrun. simpl in *.
  apply tree_at_read; [| lia].
  by apply tree_at_intro with refs.
Qed.

Lemma keyword_tree_value G env W main_keyword depth custom_prompt :
  keyword_tree G env W main_keyword depth custom_prompt =
  Some (structure_value G env W
          (fun p keyword => generate_related_keywords G env W p keyword None)
          depth custom_prompt main_keyword).
Proof. apply build_keyword_structure_value. Qed.

(** ** Intent classification *)

Lemma first_indicator_existsb indicators keyword_lower :
  is_Some (first_indicator indicators keyword_lower) <->
  existsb (fun term => Str.contains term keyword_lower) indicators = true.
Proof.
  induction indicators as [|indicator rest IH]; simpl.
  - split; [intros [? [=]] | done].
  - destruct (Str.contains indicator keyword_lower); simpl; [| exact IH].
    split; [done | by eexists].
Qed.

Lemma rule_intent_classify keyword : rule_intent keyword = classify_intent keyword.
Proof.
  unfold rule_intent, classify_intent.
  pose proof (first_indicator_existsb commercial_indicators (Str.lower keyword)) as Hc.
  pose proof (first_indicator_existsb navigational_indicators (Str.lower keyword)) as Hn.
  destruct (first_indicator commercial_indicators _) as [?|],
           (existsb _ commercial_indicators);
    try reflexivity;
    try (by destruct Hc as [Hc Hc']; first [discriminate (Hc (mk_is_Some _ _ eq_refl))
                                           | destruct (Hc' eq_refl) as [? [=]]]).
  destruct (first_indicator navigational_indicators _) as [?|],
           (existsb _ navigational_indicators);
    try reflexivity;
    by destruct Hn as [Hn Hn']; first [discriminate (Hn (mk_is_Some _ _ eq_refl))
                                      | destruct (Hn' eq_refl) as [? [=]]].
Qed.

Lemma env_set_empty name : env_set ∅ name = false.
Proof. unfold env_set. by rewrite lookup_empty. Qed.

Lemma existsb_elem_of {A} (f : A -> bool) (l : list A) x :
  x ∈ l -> f x = true -> existsb f l = true.
Proof.
  intros Hx Hfx. apply existsb_exists. exists x. split; [| done].
  by apply list_elem_of_In.
Qed.

Lemma vs_is_commercial : "vs" ∈ commercial_indicators.
Proof. unfold commercial_indicators. repeat first [apply list_elem_of_here | apply list_elem_of_further]. Defined.

(** C5: the rule-based classifier is a function of the keyword alone: it is
    the specification's [classify_intent] (commercial indicators first, then
    navigational ones, substring match on the lower-cased keyword, otherwise
    Informational); without credentials [determine_intent] is this
    classifier whatever the world and the call; the three sample keywords
    are classified as stated, and a keyword with a commercial and a
    navigational indicator is Commercial. *)
Theorem C5_rule_intent_is_classify_intent :
  (forall keyword, rule_intent keyword = classify_intent keyword) /\
  (forall G W c keyword, determine_intent G ∅ W c keyword = rule_intent keyword) /\
  rule_intent "best running shoes" = Commercial /\
  rule_intent "how to tie a knot" = Informational /\
  rule_intent "app login page" = Navigational /\
  (forall keyword com nav,
     com ∈ commercial_indicators -> nav ∈ navigational_indicators ->
     Str.contains com (Str.lower keyword) = true ->
     Str.contains nav (Str.lower keyword) = true ->
     rule_intent keyword = Commercial) /\
  rule_intent "Best App Download" = Commercial.
Proof.
  split; [exact rule_intent_classify |].
  split.
  { intros G W c keyword. unfold determine_intent.
    rewrite !env_set_empty, !andb_false_r. reflexivity. }
  do 3 (split; [reflexivity |]).
  split; [| reflexivity].
  intros keyword com nav Hcom _ Hsub _.
  rewrite rule_intent_classify. unfold classify_intent.
  by rewrite (existsb_elem_of _ _ com Hcom Hsub).
Qed.

(** C10, as amended: containment is tested on raw substrings, with no word
    boundary, so a keyword whose lower-cased text contains a commercial
    indicator anywhere, also inside a longer word, is Commercial; this holds
    for every keyword containing the letter pair "vs"; "application form" is
    Navigational through the indicator "app". *)
Theorem C10_substring_without_word_boundary (keyword indicator : string) :
  indicator ∈ commercial_indicators ->
  Str.contains indicator (Str.lower keyword) = true ->
  rule_intent keyword = Commercial /\
  "vs" ∈ commercial_indicators /\
  first_indicator navigational_indicators (Str.lower "application form") = Some "app" /\
  rule_intent "application form" = Navigational.
Proof.
  intros Hind Hsub. split.
  - rewrite rule_intent_classify. unfold classify_intent.
    by rewrite (existsb_elem_of _ _ indicator Hind Hsub).
  - split; [exact vs_is_commercial | by split].
Qed.

Lemma C10_witness :
  "vs" ∈ commercial_indicators /\
  Str.contains "vs" (Str.lower "Smart TVs") = true /\
  rule_intent "Smart TVs" = Commercial.
Proof.
  split; [exact vs_is_commercial |]. split; [reflexivity |].
  exact (proj1 (C10_substring_without_word_boundary "Smart TVs" "vs" vs_is_commercial eq_refl)).
Defined.

(** C10 as stated fails on its own example: "canvas printing" does not
    contain the letter pair "vs" and is not Commercial. *)
Lemma C10_canvas_printing_not_commercial :
  Str.contains "vs" (Str.lower "canvas printing") = false /\
  rule_intent "canvas printing" = Informational /\
  rule_intent "canvas printing" <> Commercial.
Proof. by repeat split. Qed.

(** ** [random.sample] *)

Lemma insert_take_out {A} (l : list A) j x y :
  l !! j = Some x -> x :: <[j := y]> l ≡ₚ y :: l.
Proof.
  revert j. induction l as [|z l IH]; intros [|j] Hj; simplify_eq/=.
  - apply perm_swap.
  - rewrite perm_swap. rewrite (IH j Hj). apply perm_swap.
Qed.

(** One round of the selection: the element taken out and the elements kept
    are together the pool. *)
Lemma sample_round {A} (pool : list A) j x y :
  pool !! j = Some x -> pool !! (length pool - 1) = Some y ->
  x :: take (length pool - 1) (<[j := y]> pool) ≡ₚ pool.
Proof.
  intros Hj Hlast.
  pose proof (lookup_lt_Some _ _ _ Hj) as Hlt.
  assert (Hsplit : pool = take (length pool - 1) pool ++ [y]).
  { rewrite <- (take_drop (length pool - 1) pool) at 1. f_equal.
    apply list_eq. intros [|i].
    - rewrite lookup_drop, Nat.add_0_r. done.
    - rewrite lookup_drop. simpl. apply lookup_ge_None_2. lia. }
  destruct (decide (j = length pool - 1)) as [->|Hne].
  - assert (x = y) as -> by congruence.
    rewrite list_insert_id by done.
    rewrite Hsplit at 3. by rewrite Permutation_cons_append.
  - rewrite take_insert_lt by lia.
    rewrite insert_take_out by (rewrite lookup_take_lt by lia; done).
    rewrite Hsplit at 3. by rewrite Permutation_cons_append.
Qed.

Lemma sample_within {A} (raws : nat -> nat) k : forall (pool : list A) i,
  exists rest, sample pool k raws i ++ rest ≡ₚ pool.
Proof.
  induction k as [|k IH]; intros pool i; simpl.
  - by exists pool.
  - destruct (pool !! _) as [x|] eqn:Hj; [| by exists pool].
    destruct (pool !! (length pool - 1)) as [y|] eqn:Hlast; [| by exists pool].
    destruct (IH (take (length pool - 1) (<[randbelow (length pool) (raws i) := y]> pool))
                 (S i)) as [rest Hrest].
    exists rest. simpl. rewrite Hrest. by apply sample_round.
Qed.

Lemma length_sample {A} (raws : nat -> nat) k : forall (pool : list A) i,
  k <= length pool -> length (sample pool k raws i) = k.
Proof.
  induction k as [|k IH]; intros pool i Hk; simpl; [done |].
  assert (Hj : randbelow (length pool) (raws i) < length pool).
  { unfold randbelow. apply Nat.mod_upper_bound. lia. }
  destruct (lookup_lt_is_Some_2 pool _ Hj) as [x ->].
  destruct (lookup_lt_is_Some_2 pool (length pool - 1) ltac:(lia)) as [y ->].
  simpl. rewrite IH; [done |].
  rewrite length_take, length_insert. lia.
Qed.

Lemma NoDup_sample {A} (raws : nat -> nat) k (pool : list A) i :
  NoDup pool -> NoDup (sample pool k raws i).
Proof.
  intros Hpool. destruct (sample_within raws k pool i) as [rest Hrest].
  rewrite <- Hrest in Hpool. by apply NoDup_app in Hpool as [? _].
Qed.

Lemma sample_subseteq {A} (raws : nat -> nat) k (pool : list A) i :
  sample pool k raws i ⊆ pool.
Proof.
  destruct (sample_within raws k pool i) as [rest Hrest].
  intros x Hx. rewrite <- Hrest. apply elem_of_app. by left.
Qed.

(** [list(set(l))] lists the distinct elements of [l], each once. *)
Lemma list_of_set_perm order l : list_of_set order l ≡ₚ remove_dups l.
Proof.
  unfold list_of_set.
  destruct (sample_within order (length (remove_dups l)) (remove_dups l) 0) as [rest Hrest].
  assert (rest = []) as ->.
  { apply Permutation_length in Hrest.
    rewrite length_app, length_sample in Hrest by done.
    apply nil_length_inv. lia. }
  by rewrite app_nil_r in Hrest.
Qed.

(** ** Mock competitors *)

Lemma NoDup_DOMAINS : NoDup DOMAINS.
Proof. apply (bool_decide_unpack _). by vm_compute. Qed.

Lemma rule_competitors_urls W c keyword :
  three_mock_competitors "/" keyword (rule_competitors W c keyword).
Proof.
  exists (sample DOMAINS 3 (raw_random W c) 0).
  split; [by apply length_sample; simpl; lia |].
  split; [apply NoDup_sample, NoDup_DOMAINS |].
  split; [apply sample_subseteq |].
  unfold rule_competitors. rewrite fmap_imap.
  rewrite <- imap_const. by apply imap_ext.
Qed.

Lemma length_rule_competitors W c keyword : length (rule_competitors W c keyword) = 3.
Proof.
  unfold rule_competitors. rewrite length_imap. by apply length_sample; simpl; lia.
Qed.

Lemma generate_competitors_no_credentials G W c keyword :
  generate_competitors G ∅ W c keyword = rule_competitors W c keyword.
Proof.
  unfold generate_competitors, generate_competitors_with_google_search.
  rewrite !env_set_empty, !andb_false_r. simpl. by destruct (GOOGLE_SEARCH_AVAILABLE G).
Qed.

(** C6, as amended: for every keyword and whatever the random numbers, the
    rule-based competitor generator returns exactly 3 records whose domains
    are pairwise distinct elements of [DOMAINS], and the URL of each record
    is "https://www.<domain>/", then the lower-case hyphenated slug of the
    keyword, then a closing "/"; without credentials this is the result of
    [generate_competitors]. *)
Theorem C6_rule_competitors_three_distinct_domains W c keyword :
  length (rule_competitors W c keyword) = 3 /\
  three_mock_competitors "/" keyword (rule_competitors W c keyword) /\
  (forall G, generate_competitors G ∅ W c keyword = rule_competitors W c keyword).
Proof.
  split; [apply length_rule_competitors |].
  split; [apply rule_competitors_urls |].
  intros G. apply generate_competitors_no_credentials.
Qed.

(** C6 as stated fails: the URL does not end with the slug, a "/" follows
    it.  For "seo tips" the first URL is "https://www.example.com/seo-tips/". *)
Lemma C6_url_has_trailing_slash :
  url <$> rule_competitors quiet_world {| role := NodeCompetitors; site := [] |} "seo tips" =
    ["https://www.example.com/seo-tips/";
     "https://www.bloggingwizard.com/seo-tips/";
     "https://www.contentmarketinginstitute.com/seo-tips/"] /\
  ~ three_mock_competitors "" "seo tips"
      (rule_competitors quiet_world {| role := NodeCompetitors; site := [] |} "seo tips").
Proof.
  split; [reflexivity |].
  intros (domains & Hlen & _ & Hsub & Hurls).
  destruct domains as [|d1 domains]; [discriminate |].
  assert (Hd1 : d1 ∈ DOMAINS) by (apply Hsub; left).
  vm_compute in Hurls. injection Hurls as Hurl _.
  unfold DOMAINS in Hd1.
  repeat (apply elem_of_cons in Hd1 as [-> | Hd1]; [discriminate Hurl |]).
  by apply elem_of_nil in Hd1.
Qed.

(** ** The fallback cascade *)

Lemma take_min_length {A} n (l : list A) : take (n `min` length l) l = take n l.
Proof.
  destruct (decide (n <= length l)) as [Hle|Hgt].
  - by rewrite Nat.min_l.
  - rewrite Nat.min_r by lia. by rewrite !take_ge by lia.
Qed.

Lemma nonempty_length {A} (l : list A) : 0 < length l -> nonempty l = true.
Proof. destruct l; simpl; [lia | done]. Qed.

Lemma nonempty_length_pos {A} (l : list A) : nonempty l = true -> 0 < length l.
Proof. destruct l; simpl; [done | lia]. Qed.

Lemma nonempty_not_nil {A} (l : list A) : nonempty l = true -> l <> [].
Proof. by destruct l. Qed.

Lemma choice_elem_of {A} (first : A) others raw : choice first others raw ∈ first :: others.
Proof.
  unfold choice. destruct (_ !! _) as [x|] eqn:Hx; simpl.
  - by eapply list_elem_of_lookup_2.
  - left.
Qed.

Lemma choice_Forall {A} (P : A -> Prop) first others raw :
  Forall P (first :: others) -> P (choice first others raw).
Proof. intros HP. eapply Forall_forall; [exact HP | apply choice_elem_of]. Qed.

Lemma truthy_append_r s1 s2 : Str.truthy s2 = true -> Str.truthy (s1 +:+ s2) = true.
Proof. by destruct s1. Qed.

Ltac template_not_empty :=
  first [reflexivity | apply truthy_append_r; reflexivity].

Ltac templates_not_empty :=
  apply (choice_Forall (fun t => Str.truthy t = true));
  repeat (constructor; [template_not_empty |]); constructor.

(** the rule engine always has a title *)
Lemma rule_title_truthy W c keyword intent custom_prompt :
  Str.truthy (rule_title W c keyword intent custom_prompt) = true.
Proof.
  unfold rule_title, custom_template_title, standard_template_title.
  destruct (Str.truthy custom_prompt), intent;
    repeat match goal with |- context [if ?b then _ else _] => destruct b end;
    templates_not_empty.
Qed.

(** the rule engine always has related keywords: at least one, at most 10 *)
Lemma rule_related_keywords_length W c keyword intent :
  0 < length (rule_related_keywords W c keyword intent) <= 10.
Proof.
  unfold rule_related_keywords. rewrite take_min_length, length_take.
  match goal with |- context [list_of_set ?o ?l] => set (all := l); set (order := o) end.
  rewrite (Permutation_length (list_of_set_perm order all)).
  assert (Hin : (keyword +:+ " examples") ∈ remove_dups all).
  { apply elem_of_remove_dups. unfold all. rewrite !elem_of_app. right. right. left. }
  assert (0 < length (remove_dups all)); [| lia].
  destruct (remove_dups all); [by apply elem_of_nil in Hin | simpl; lia].
Qed.

Lemma generate_related_keywords_length G env W p keyword intent :
  0 < length (generate_related_keywords G env W p keyword intent) <= 10.
Proof.
  unfold generate_related_keywords. cbv zeta. rewrite !take_min_length.
  repeat match goal with
  | |- context [if nonempty ?l then _ else _] =>
      let Hl := fresh "Hl" in
      destruct (nonempty l) eqn:Hl;
      [apply nonempty_length_pos in Hl; rewrite length_take; lia |]
  end.
  apply rule_related_keywords_length.
Qed.

(** ** Credentials *)

(** C4, the behaviour of the code: the two AI providers are consulted
    according to the credential present when the capability is called (set
    after import, OpenAI answers), but the web-search provider is consulted
    according to [GOOGLE_SEARCH_AVAILABLE], which was computed from the
    environment at import.  With the search credentials set only afterwards,
    the adapter would answer, yet [generate_competitors] does not consult it
    and returns the mock records. *)
Theorem C4_search_credentials_fixed_at_import :
  let G := import_module true true ∅ in
  let c := {| role := NodeCompetitors; site := [] |} in
  (forall env0 a b,
     GOOGLE_SEARCH_AVAILABLE (import_module a b env0) =
     env_set env0 "GOOGLE_SEARCH_API_KEY" && env_set env0 "GOOGLE_SEARCH_CX") /\
  generate_competitors G ∅ live_world c "seo" = rule_competitors live_world c "seo" /\
  generate_competitors G openai_env live_world c "seo" = [live_result] /\
  generate_competitors_with_google_search search_env live_world c "seo" = [live_result] /\
  generate_competitors G search_env live_world c "seo" = rule_competitors live_world c "seo" /\
  generate_competitors G search_env live_world c "seo" <> [live_result].
Proof.
  intros G c. split; [done |].
  split; [apply generate_competitors_no_credentials |].
  assert (Hkey : env_set openai_env "OPENAI_API_KEY" = true) by by vm_compute.
  assert (Hs1 : env_set search_env "GOOGLE_SEARCH_API_KEY" = true) by by vm_compute.
  assert (Hs2 : env_set search_env "GOOGLE_SEARCH_CX" = true) by by vm_compute.
  assert (Hs3 : env_set search_env "OPENAI_API_KEY" = false) by by vm_compute.
  assert (Hs4 : env_set search_env "GEMINI_API_KEY" = false) by by vm_compute.
  split.
  { unfold generate_competitors, generate_competitors_with_openai. simpl.
    rewrite env_set_empty. simpl. by rewrite Hkey. }
  split.
  { unfold generate_competitors_with_google_search. by rewrite Hs1, Hs2. }
  assert (Hrun : generate_competitors G search_env live_world c "seo" =
                 rule_competitors live_world c "seo").
  { unfold generate_competitors. simpl. rewrite env_set_empty, Hs3, Hs4. reflexivity. }
  split; [exact Hrun |].
  rewrite Hrun. intros Heq. apply (f_equal length) in Heq.
  by rewrite length_rule_competitors in Heq.
Qed.

(** ** Every node of a generated tree *)

Lemma Forall_imap_intro {A B} (P : B -> Prop) (f : nat -> A -> B) (l : list A) :
  (forall i x, l !! i = Some x -> P (f i x)) -> Forall P (imap f l).
Proof.
  intros Hf. apply Forall_forall. intros y Hy.
  apply elem_of_lookup_imap in Hy as (i & x & -> & Hx). by apply Hf.
Qed.

Lemma randint_bounds a b raw : a <= b -> a <= randint a b raw <= b.
Proof.
  intros Hab. unfold randint, randbelow.
  pose proof (Nat.mod_upper_bound raw (b - a + 1)). lia.
Qed.

Lemma node_data_word_count G env W p keyword is_root custom_prompt :
  word_count_in_range (node_data G env W p keyword is_root custom_prompt).
Proof.
  unfold word_count_in_range, node_data. simpl.
  match goal with |- context [recommend_word_count _ _ ?i] => destruct i end;
    simpl; apply randint_bounds; lia.
Qed.

(** every node of the tree carries the data [generate_keyword_node] made *)
Lemma structure_value_nodes G env W related depth custom_prompt main_keyword :
  Forall (fun n => exists p keyword is_root,
            data n = node_data G env W p keyword is_root custom_prompt)
         (all_nodes (structure_value G env W related depth custom_prompt main_keyword)).
Proof.
  unfold structure_value. simpl. constructor; [by eexists _, _, _ |].
  apply Forall_bind. unfold first_level. apply Forall_imap_intro. intros i kw _.
  simpl. constructor; [by eexists _, _, _ |].
  apply Forall_bind. unfold second_level. case_bool_decide; [| constructor].
  apply Forall_imap_intro. intros j kw2 _.
  simpl. constructor; [by eexists _, _, _ |].
  apply Forall_bind. unfold third_level. case_bool_decide; [| constructor].
  apply Forall_imap_intro. intros k kw3 _.
  simpl. constructor; [by eexists _, _, _ | constructor].
Qed.

(** C7: every node of the tree that [generate_keyword_structure] returns has
    a word count within the range of its intent: 1500 to 2500 for
    Informational, 1200 to 2000 for Commercial, 800 to 1500 for
    Navigational. *)
Theorem C7_word_count_within_intent_range G env W main_keyword depth custom_prompt :
  exists t, keyword_tree G env W main_keyword depth custom_prompt = Some t /\
    Forall (fun n => word_count_in_range (data n)) (all_nodes t).
Proof.
  eexists. split; [apply keyword_tree_value |].
  eapply Forall_impl; [apply structure_value_nodes |].
  intros n (p & keyword & is_root & ->). apply node_data_word_count.
Qed.

(** ** The custom prompt *)

Lemma erase_titles_imap {A} (f : nat -> A -> Node) (l : list A) :
  erase_titles <$> imap f l = imap (fun i x => erase_titles (f i x)) l.
Proof. by rewrite fmap_imap. Qed.

Lemma structure_value_erase_titles G env W related depth main_keyword prompt1 prompt2 :
  erase_titles (structure_value G env W related depth prompt1 main_keyword) =
  erase_titles (structure_value G env W related depth prompt2 main_keyword).
Proof.
  unfold structure_value, first_level. simpl. f_equal.
  rewrite !erase_titles_imap. apply imap_ext. intros i kw _. simpl. f_equal.
  unfold second_level. case_bool_decide; [| done].
  rewrite !erase_titles_imap. apply imap_ext. intros j kw2 _. simpl. f_equal.
  unfold third_level. case_bool_decide; [| done].
  rewrite !erase_titles_imap. by apply imap_ext.
Qed.

(** C8: two runs of [generate_keyword_structure] that differ only in the
    custom prompt (same keyword, depth, globals, environment, and the same
    world, which hands every capability call the same random numbers and
    provider answers in both runs) return trees that are equal once the
    titles are blanked: same shape, and at every node the same keyword,
    intent, word count and competitors. *)
Theorem C8_custom_prompt_only_changes_titles G env W main_keyword depth prompt1 prompt2 :
  exists t1 t2,
    keyword_tree G env W main_keyword depth prompt1 = Some t1 /\
    keyword_tree G env W main_keyword depth prompt2 = Some t2 /\
    erase_titles t1 = erase_titles t2.
Proof.
  eexists _, _. split; [apply keyword_tree_value |]. split; [apply keyword_tree_value |].
  apply structure_value_erase_titles.
Qed.

(** ** Branching *)

Lemma length_third_level G env W related depth custom_prompt i j sub_keyword :
  length (third_level G env W related depth custom_prompt i j sub_keyword) <= 2.
Proof.
  unfold third_level. case_bool_decide; simpl; [| lia].
  rewrite length_imap, length_take. lia.
Qed.

Lemma length_second_level G env W related depth custom_prompt i keyword :
  length (second_level G env W related depth custom_prompt i keyword) <= 3.
Proof.
  unfold second_level. case_bool_decide; simpl; [| lia].
  rewrite length_imap, length_take. lia.
Qed.

Lemma third_level_leaves G env W related depth custom_prompt i j sub_keyword :
  Forall is_leaf (third_level G env W related depth custom_prompt i j sub_keyword).
Proof.
  unfold third_level. case_bool_decide; [| constructor].
  by apply Forall_imap_intro.
Qed.

Lemma structure_value_caps G env W related depth custom_prompt main_keyword cap1 :
  length (related [] main_keyword) <= cap1 ->
  respects_caps cap1 depth
    (structure_value G env W related depth custom_prompt main_keyword).
Proof.
  intros Hcap. unfold respects_caps, structure_value, first_level. simpl.
  split; [by rewrite length_imap |].
  apply Forall_imap_intro. intros i kw _. simpl.
  split; [apply length_second_level |].
  split.
  { intros Hd. unfold is_leaf, second_level. simpl. by rewrite bool_decide_eq_false_2 by lia. }
  unfold second_level. case_bool_decide; [| constructor].
  apply Forall_imap_intro. intros j kw2 _. simpl.
  split; [apply length_third_level |].
  split; [| apply third_level_leaves].
  intros Hd. unfold is_leaf, third_level. simpl. by rewrite bool_decide_eq_false_2 by lia.
Qed.

(** C1, as amended: for every seed keyword and depth the tree respects the
    caps of the code: the root has at most 10 first-level children (the
    limit of [generate_related_keywords]; the first level is not cut
    further), each first-level node has at most 3 children and only if
    depth >= 2, each second-level node has at most 2 children and only if
    depth >= 3, and third-level nodes have none. *)
Theorem C1_branching_caps G env W main_keyword depth custom_prompt :
  exists t, keyword_tree G env W main_keyword depth custom_prompt = Some t /\
    respects_caps 10 depth t.
Proof.
  eexists. split; [apply keyword_tree_value |].
  apply structure_value_caps. apply generate_related_keywords_length.
Qed.

(** the first-level keywords of "seo" in the quiet world *)
Lemma seo_first_level_keywords :
  length (generate_related_keywords bare_globals ∅ quiet_world [] "seo" None) = 10.
Proof. vm_compute. reflexivity. Qed.

(** C1 as stated fails: without providers the seed "seo" at depth 1 gets 10
    first-level children, more than 5. *)
Lemma C1_root_has_ten_children :
  exists t, keyword_tree bare_globals ∅ quiet_world "seo" 1 "" = Some t /\
    length (children t) = 10 /\
    ~ respects_caps 5 1 t.
Proof.
  eexists. split; [apply keyword_tree_value |].
  assert (Hlen : length (children (structure_value bare_globals ∅ quiet_world
            (fun p keyword => generate_related_keywords bare_globals ∅ quiet_world p keyword None)
            1 "" "seo")) = 10).
  { unfold structure_value, first_level, children. rewrite length_imap.
    exact seo_first_level_keywords. }
  split; [exact Hlen |].
  intros [Hcap _]. rewrite Hlen in Hcap. lia.
Qed.

(** ** Depth *)

Lemma height_node d ts : height (mkNode d ts) = max_list_with (fun t => S (height t)) ts.
Proof. reflexivity. Qed.

Lemma max_list_with_all {A} (f : A -> nat) (l : list A) n :
  l <> [] -> Forall (fun x => f x = n) l -> max_list_with f l = n.
Proof.
  intros Hne Hall. induction Hall as [|x l Hx Hall IH]; [done |]. simpl.
  destruct l as [|y l]; [simpl; lia |]. rewrite IH by done. lia.
Qed.

Lemma max_list_with_bound {A} (f : A -> nat) (l : list A) n :
  Forall (fun x => f x <= n) l -> max_list_with f l <= n.
Proof. induction 1; simpl; lia. Qed.

Lemma imap_not_nil {A B} (f : nat -> A -> B) (l : list A) : l <> [] -> imap f l <> [].
Proof. by destruct l. Qed.

Lemma take_S_not_nil {A} n (l : list A) : l <> [] -> take (S n) l <> [].
Proof. by destruct l. Qed.

Lemma effective_depth_cases depth :
  ((depth < 2)%Z /\ effective_depth depth = 1) \/
  ((depth >= 2)%Z /\ (depth < 3)%Z /\ effective_depth depth = 2) \/
  ((depth >= 3)%Z /\ effective_depth depth = 3).
Proof. unfold effective_depth. lia. Qed.

Section Depth.
Variable G : Globals.
Variable env : environ.
Variable W : World.
Variable related : path -> string -> list string.
Variable depth : Z.
Variable custom_prompt : string.
Variable main_keyword : string.

Let t := structure_value G env W related depth custom_prompt main_keyword.

Lemma third_level_height i j sub_keyword :
  Forall (fun n => S (height n) = 1)
         (third_level G env W related depth custom_prompt i j sub_keyword).
Proof. unfold third_level. case_bool_decide; [| constructor]. by apply Forall_imap_intro. Qed.

Lemma structure_value_height_bound : height t <= 3.
Proof.
  unfold t, structure_value. rewrite height_node. apply max_list_with_bound.
  unfold first_level. apply Forall_imap_intro. intros i kw _.
  rewrite height_node. apply le_n_S, max_list_with_bound.
  unfold second_level. case_bool_decide; [| constructor].
  apply Forall_imap_intro. intros j kw2 _.
  rewrite height_node. apply le_n_S, max_list_with_bound.
  eapply Forall_impl; [apply third_level_height |]. simpl. intros; lia.
Qed.

Lemma structure_value_first_level :
  length (children t) = length (related [] main_keyword).
Proof. unfold t, structure_value, first_level. simpl. apply length_imap. Qed.

(** with a first level and nothing asked below it, the tree has one level *)
Lemma structure_value_height_one :
  (depth < 2)%Z -> related [] main_keyword <> [] -> height t = 1.
Proof.
  intros Hd Hne. unfold t, structure_value. rewrite height_node.
  apply max_list_with_all; [by apply imap_not_nil |].
  unfold first_level. apply Forall_imap_intro. intros i kw _.
  rewrite height_node. unfold second_level.
  by rewrite bool_decide_eq_false_2 by lia.
Qed.

Lemma structure_value_leaves :
  Forall is_leaf (level (effective_depth depth) t).
Proof.
  destruct (effective_depth_cases depth) as [[Hd ->]|[(Hd2 & Hd3 & ->)|[Hd ->]]];
    unfold t, structure_value, first_level; simpl level;
    apply Forall_bind, Forall_imap_intro; intros i kw _; simpl.
  - constructor; [| constructor]. unfold is_leaf, second_level. simpl.
    by rewrite bool_decide_eq_false_2 by lia.
  - apply Forall_bind. unfold second_level. case_bool_decide; [| constructor].
    apply Forall_imap_intro. intros j kw2 _.
    constructor; [| constructor]. unfold is_leaf, third_level. simpl.
    by rewrite bool_decide_eq_false_2 by lia.
  - apply Forall_bind. unfold second_level. case_bool_decide; [| constructor].
    apply Forall_imap_intro. intros j kw2 _. simpl.
    apply Forall_bind. eapply Forall_impl; [apply third_level_leaves |].
    intros n Hn. by constructor.
Qed.

Hypothesis related_not_empty : forall p keyword, related p keyword <> [].

Lemma structure_value_height : height t = effective_depth depth.
Proof.
  unfold t, structure_value. rewrite height_node.
  apply max_list_with_all; [by apply imap_not_nil |].
  unfold first_level. apply Forall_imap_intro. intros i kw _.
  rewrite height_node. unfold second_level.
  destruct (effective_depth_cases depth) as [[Hd ->]|[(Hd2 & Hd3 & ->)|[Hd ->]]].
  - by rewrite bool_decide_eq_false_2 by lia.
  - rewrite bool_decide_eq_true_2 by lia. f_equal.
    apply max_list_with_all; [by apply imap_not_nil, take_S_not_nil |].
    apply Forall_imap_intro. intros j kw2 _.
    rewrite height_node. unfold third_level.
    by rewrite bool_decide_eq_false_2 by lia.
  - rewrite bool_decide_eq_true_2 by lia. f_equal.
    apply max_list_with_all; [by apply imap_not_nil, take_S_not_nil |].
    apply Forall_imap_intro. intros j kw2 _.
    rewrite height_node. unfold third_level.
    rewrite bool_decide_eq_true_2 by lia. f_equal.
    apply max_list_with_all; [by apply imap_not_nil, take_S_not_nil |].
    by apply Forall_imap_intro.
Qed.

(** above the effective depth no branch stops *)
Lemma structure_value_inner_nodes k :
  k < effective_depth depth -> Forall (fun n => ~ is_leaf n) (level k t).
Proof.
  intros Hk. unfold t, structure_value, first_level.
  destruct k as [|[|[|k]]].
  - constructor; [| constructor]. unfold is_leaf. simpl. by apply imap_not_nil.
  - simpl level. apply Forall_bind, Forall_imap_intro. intros i kw _. simpl.
    constructor; [| constructor]. unfold is_leaf, second_level. simpl.
    rewrite bool_decide_eq_true_2 by (unfold effective_depth in Hk; lia).
    by apply imap_not_nil, take_S_not_nil.
  - simpl level. apply Forall_bind, Forall_imap_intro. intros i kw _. simpl.
    apply Forall_bind. unfold second_level. case_bool_decide; [| constructor].
    apply Forall_imap_intro. intros j kw2 _.
    constructor; [| constructor]. unfold is_leaf, third_level. simpl.
    rewrite bool_decide_eq_true_2 by (unfold effective_depth in Hk; lia).
    by apply imap_not_nil, take_S_not_nil.
  - unfold effective_depth in Hk. lia.
Qed.

End Depth.

(** A node whose related-keyword list is empty gets no children, wherever
    it sits in the tree. *)
Lemma structure_value_dead_end G env W related depth custom_prompt main_keyword p n :
  subtree p (structure_value G env W related depth custom_prompt main_keyword) = Some n ->
  related p (keyword (data n)) = [] -> is_leaf n.
Proof.
  unfold is_leaf, structure_value, first_level.
  destruct p as [|i [|j [|k [|l p]]]]; simpl; intros Hn Hrel.
  - injection Hn as <-. simpl in *. by rewrite Hrel.
  - rewrite list_lookup_imap in Hn.
    destruct (related [] main_keyword !! i) as [kw|]; simplify_eq/=.
    unfold second_level. rewrite Hrel. by case_bool_decide.
  - rewrite list_lookup_imap in Hn.
    destruct (related [] main_keyword !! i) as [kw|]; simplify_eq/=.
    unfold second_level in Hn. case_bool_decide; [| done].
    rewrite list_lookup_imap in Hn.
    destruct (take 3 (related [i] kw) !! j) as [kw2|]; simplify_eq/=.
    unfold third_level. rewrite Hrel. by case_bool_decide.
  - rewrite list_lookup_imap in Hn.
    destruct (related [] main_keyword !! i) as [kw|]; simplify_eq/=.
    unfold second_level in Hn. case_bool_decide; [| done].
    rewrite list_lookup_imap in Hn.
    destruct (take 3 (related [i] kw) !! j) as [kw2|]; simplify_eq/=.
    unfold third_level in Hn. case_bool_decide; [| done].
    rewrite list_lookup_imap in Hn.
    destruct (take 2 (related [i; j] kw2) !! k) as [kw3|]; by simplify_eq/=.
  - rewrite list_lookup_imap in Hn.
    destruct (related [] main_keyword !! i) as [kw|]; simplify_eq/=.
    unfold second_level in Hn. case_bool_decide; [| done].
    rewrite list_lookup_imap in Hn.
    destruct (take 3 (related [i] kw) !! j) as [kw2|]; simplify_eq/=.
    unfold third_level in Hn. case_bool_decide; [| done].
    rewrite list_lookup_imap in Hn.
    destruct (take 2 (related [i; j] kw2) !! k) as [kw3|]; by simplify_eq/=.
Qed.

Lemma generate_related_keywords_not_nil G env W p keyword :
  generate_related_keywords G env W p keyword None <> [].
Proof. apply nonempty_not_nil, nonempty_length, generate_related_keywords_length. Qed.

(** C2: for every seed keyword and every depth d in {1,2,3} the builder
    returns a tree (no error) in which, provided related-keyword generation
    returns a non-empty list at each expansion step, the number of levels
    below the root is exactly min(d, 3); every node at that depth has an
    empty children list; and a node whose related-keyword generation yields
    zero keywords has no children.  [related] is whatever the calls of
    [generate_related_keywords] return. *)
Theorem C2_depth_exact_and_early_termination
    G env W related main_keyword (depth : Z) custom_prompt :
  (1 <= depth <= 3)%Z ->
  exists t,
    tree_of (build_keyword_structure G env W related main_keyword depth custom_prompt)
      = Some t /\
    ((forall p keyword, related p keyword <> []) ->
       height t = Z.to_nat (Z.min depth 3)) /\
    Forall is_leaf (level (Z.to_nat (Z.min depth 3)) t) /\
    (forall p n, subtree p t = Some n -> related p (keyword (data n)) = [] -> is_leaf n).
Proof.
  intros Hd. eexists. split; [apply build_keyword_structure_value |].
  assert (Heff : Z.to_nat (Z.min depth 3) = effective_depth depth)
    by (unfold effective_depth; lia).
  rewrite Heff. split; [| split].
  - intros Hne. by apply structure_value_height.
  - apply structure_value_leaves.
  - intros p n. apply structure_value_dead_end.
Qed.

Lemma C2_witness :
  (1 <= 2 <= 3)%Z /\
  exists t,
    keyword_tree bare_globals ∅ quiet_world "seo" 2 "" = Some t /\
    height t = 2 /\
    Forall is_leaf (level 2 t).
Proof.
  split; [lia |].
  destruct (C2_depth_exact_and_early_termination bare_globals ∅ quiet_world
              (fun p keyword => generate_related_keywords bare_globals ∅ quiet_world p keyword None)
              "seo" 2 "" ltac:(lia))
    as (t & Ht & Hheight & Hleaves & _).
  exists t. split; [exact Ht |]. split; [| exact Hleaves].
  apply Hheight. intros p keyword. apply generate_related_keywords_not_nil.
Defined.

(** C9: the builder clamps the depth itself.  For every integer depth the
    first level is built unconditionally, one child per first-level keyword
    (so a depth of 0 or less still gives one level when there are first-level
    keywords), there is never a fourth level, and when no expansion step
    comes back empty every branch ends exactly at depth min(max(d,1),3). *)
Theorem C9_effective_depth_clamped G env W related main_keyword (depth : Z) custom_prompt :
  exists t,
    tree_of (build_keyword_structure G env W related main_keyword depth custom_prompt)
      = Some t /\
    length (children t) = length (related [] main_keyword) /\
    ((depth <= 0)%Z -> related [] main_keyword <> [] -> height t = 1) /\
    height t <= 3 /\
    Forall is_leaf (level (effective_depth depth) t) /\
    ((forall p keyword, related p keyword <> []) ->
       height t = effective_depth depth /\
       forall k, k < effective_depth depth -> Forall (fun n => ~ is_leaf n) (level k t)).
Proof.
  eexists. split; [apply build_keyword_structure_value |].
  split; [apply structure_value_first_level |].
  split; [intros Hd Hne; apply structure_value_height_one; [lia | done] |].
  split; [apply structure_value_height_bound |].
  split; [apply structure_value_leaves |].
  intros Hne. split; [by apply structure_value_height |].
  intros k. by apply structure_value_inner_nodes.
Qed.

(** The tree of [generate_keyword_structure] itself: its related-keyword
    step never comes back empty, so the depth is min(max(d,1),3) outright. *)
Lemma keyword_tree_height G env W main_keyword depth custom_prompt :
  exists t, keyword_tree G env W main_keyword depth custom_prompt = Some t /\
    height t = effective_depth depth /\
    0 < length (children t) <= 10.
Proof.
  eexists. split; [apply keyword_tree_value |]. split.
  - apply structure_value_height. intros p keyword. apply generate_related_keywords_not_nil.
  - rewrite structure_value_first_level. apply generate_related_keywords_length.
Qed.

(** The titles do depend on the custom prompt. *)
Lemma custom_prompt_changes_title :
  title (node_data bare_globals ∅ quiet_world [] "seo" true "") =
    "Top 10 Best Seo Solutions in 2023" /\
  title (node_data bare_globals ∅ quiet_world [] "seo" true "please add numbers") =
    "Top 10 Seo Products to Buy in 2025".
Proof. split; reflexivity. Qed.

(** ** Node ids of the graph *)

Lemma of_nat_inj n m : Str.of_nat n = Str.of_nat m -> n = m.
Proof.
  unfold Str.of_nat. intros Heq.
  apply (f_equal NilEmpty.uint_of_string) in Heq.
  rewrite !NilEmpty.usu in Heq. injection Heq as Heq.
  by apply DecimalNat.Unsigned.to_uint_inj.
Qed.

Lemma append_inj_l a b c : a +:+ b = a +:+ c -> b = c.
Proof. induction a as [|x a IH]; simpl; [done |]. intros [=]. auto. Qed.

Lemma append_nil_r a : a +:+ "" = a.
Proof.
  induction a as [|x a IH]; [done |].
  change (String x (a +:+ "") = String x a). by f_equal.
Qed.

(** the ids the loop tries, in order: the base id, then the numbered ones *)
Definition candidate (base_id : string) (k : nat) : string :=
  match k with
  | 0 => base_id
  | S _ => base_id +:+ "_" +:+ Str.of_nat k
  end.

Lemma candidate_inj base_id : Inj (=) (=) (candidate base_id).
Proof.
  intros [|i] [|j] Heq; simpl in Heq; [done | | |].
  - rewrite <- (append_nil_r base_id) in Heq at 1. by apply append_inj_l in Heq.
  - symmetry in Heq.
    rewrite <- (append_nil_r base_id) in Heq at 1. by apply append_inj_l in Heq.
  - apply append_inj_l in Heq. injection Heq as Heq. by apply of_nat_inj in Heq.
Qed.

Lemma candidates_in_used (used : gset string) base_id k :
  (forall j, j < k -> candidate base_id j ∈ used) -> k <= size used.
Proof.
  intros Hall.
  assert (Hsub : candidate base_id <$> seq 0 k ⊆+ elements used).
  { apply NoDup_submseteq.
    - apply NoDup_fmap_2; [apply candidate_inj | apply NoDup_seq].
    - intros x (j & -> & Hj)%list_elem_of_fmap. apply elem_of_elements, Hall.
      apply elem_of_seq in Hj. lia. }
  apply submseteq_length in Hsub. by rewrite length_fmap, length_seq in Hsub.
Qed.

Lemma unique_id_loop_finds (used : gset string) base_id fuel : forall k,
  (forall j, j < k -> candidate base_id j ∈ used) ->
  size used < k + fuel ->
  exists m, k <= m /\
    unique_id_loop fuel used base_id (candidate base_id k) (S k) = Some (candidate base_id m) /\
    (candidate base_id m ∉ used) /\
    (forall j, j < m -> candidate base_id j ∈ used).
Proof.
  induction fuel as [|fuel IH]; intros k Hbelow Hfuel.
  - pose proof (candidates_in_used used base_id k Hbelow). lia.
  - simpl. case_bool_decide as Hk.
    + destruct (IH (S k)) as (m & Hm & Hrun & Hfree & Hmin); [| lia |].
      { intros j Hj. destruct (decide (j = k)) as [->|]; [done | apply Hbelow; lia]. }
      exists m. split; [lia |]. by split.
    + exists k. by repeat split.
Qed.

Lemma unique_id_spec (used : gset string) base_id :
  exists m,
    unique_id used base_id = Some (candidate base_id m) /\
    (candidate base_id m ∉ used) /\
    (forall j, j < m -> candidate base_id j ∈ used).
Proof.
  destruct (unique_id_loop_finds used base_id (size used + 2) 0) as (m & _ & Hrun & Hrest);
    [intros j Hj; lia | lia |].
  by exists m.
Qed.

Lemma truthy_candidate base_id m :
  Str.truthy base_id = true -> Str.truthy (candidate base_id m) = true.
Proof. destruct m; simpl; [done |]. by destruct base_id. Qed.

Lemma length_map_chars f s : String.length (Str.map_chars f s) = String.length s.
Proof. induction s as [|c s IH]; simpl; [done | by f_equal]. Qed.

Lemma truthy_clean_id text : Str.truthy (clean_id text) = Str.truthy text.
Proof. by destruct text. Qed.

(** ** The graph of a tree *)

(** the loop over the children inside [process_node] *)
Definition process_children (node_id : string) (depth : nat)
    : list Node -> VisState -> option VisState :=
  fix process_children (cs : list Node) (st : VisState) : option VisState :=
    match cs with
    | [] => Some st
    | child :: cs' =>
        st' ← process_node child (Some node_id) (S depth) st;
        process_children cs' st'
    end.

(** a node that has children has a keyword *)
Definition inner_keywords (t : Node) : Prop :=
  Forall (fun n => children n <> [] -> keyword (data n) <> "") (all_nodes t).

Definition parent_given (parent_id : option string) : bool :=
  match parent_id with Some p => Str.truthy p | None => false end.

(** [15 if depth == 0 else (12 if depth == 1 else 10)] *)
Definition size_at (depth : nat) : nat :=
  if bool_decide (depth = 0) then 15 else if bool_decide (depth = 1) then 12 else 10.

(** what processing the trees [ts], roots at depth [depth], below [parent_id]
    adds to the state *)
Definition processed (parent_id : option string) (depth : nat) (ts : list Node)
    (st st' : VisState) (new_nodes : list AgraphNode) (new_edges : list AgraphEdge) : Prop :=
  nodes st' = nodes st ++ new_nodes /\
  edges st' = edges st ++ new_edges /\
  (forall x, x ∈ used_ids st' <-> x ∈ used_ids st \/ x ∈ agraph_id <$> new_nodes) /\
  agraph_label <$> new_nodes = (fun n => keyword (data n)) <$> (ts ≫= all_nodes) /\
  agraph_color <$> new_nodes = (fun n => intent_color (intent (data n))) <$> (ts ≫= all_nodes) /\
  agraph_title <$> new_nodes = (fun n => tooltip_of (data n)) <$> (ts ≫= all_nodes) /\
  agraph_size <$> new_nodes = size_at <$> (ts ≫= node_depths depth) /\
  NoDup (agraph_id <$> new_nodes) /\
  (forall x, x ∈ agraph_id <$> new_nodes -> x ∉ used_ids st) /\
  Forall (fun e => Str.truthy (source e) = true /\
                   (Some (source e) = parent_id \/ source e ∈ agraph_id <$> new_nodes) /\
                   target e ∈ agraph_id <$> new_nodes) new_edges /\
  (parent_given parent_id = true -> Forall inner_keywords ts ->
     target <$> new_edges = agraph_id <$> new_nodes).

Lemma process_node_unfold d cs parent_id depth st :
  process_node (mkNode d cs) parent_id depth st =
  (node_id ← unique_id (used_ids st) (clean_id (keyword d));
   process_children node_id depth cs
     {| nodes := nodes st ++
                 [{| agraph_id := node_id; agraph_label := keyword d;
                     agraph_size := if bool_decide (depth = 0) then 15
                                    else if bool_decide (depth = 1) then 12 else 10;
                     agraph_color := intent_color (intent d);
                     agraph_title := tooltip_of d |}];
        edges := match parent_id with
                 | Some p =>
                     if Str.truthy p
                     then edges st ++ [{| source := p; target := node_id |}]
                     else edges st
                 | None => edges st
                 end;
        used_ids := {[node_id]} ∪ used_ids st |}).
Proof. reflexivity. Qed.

Lemma processed_nil parent_id depth st : processed parent_id depth [] st st [] [].
Proof.
  unfold processed. rewrite !app_nil_r. simpl.
  do 2 (split; [done |]).
  split.
  { intros x. split; [by left |]. intros [? | Hx]; [done | by apply elem_of_nil in Hx]. }
  do 4 (split; [done |]).
  split; [constructor |].
  split; [intros x Hx; by apply elem_of_nil in Hx |].
  split; [constructor | done].
Qed.

Lemma processed_nil_inv parent_id depth st st' new_nodes new_edges :
  processed parent_id depth [] st st' new_nodes new_edges ->
  new_nodes = [] /\ new_edges = [].
Proof.
  intros (_ & _ & _ & Hlabels & _ & _ & _ & _ & _ & Hedges & _).
  assert (new_nodes = []) as -> by (by destruct new_nodes).
  split; [done |]. destruct new_edges as [|e ?]; [done |].
  apply Forall_cons in Hedges as [(_ & _ & He) _]. by apply elem_of_nil in He.
Qed.

Lemma processed_cons parent_id depth t ts st st1 st2 nn1 ne1 nn2 ne2 :
  processed parent_id depth [t] st st1 nn1 ne1 ->
  processed parent_id depth ts st1 st2 nn2 ne2 ->
  processed parent_id depth (t :: ts) st st2 (nn1 ++ nn2) (ne1 ++ ne2).
Proof.
  intros (Hn1 & He1 & Hu1 & Hl1 & Hc1 & Ht1 & Hz1 & Hd1 & Hf1 & Hs1 & Hg1)
         (Hn2 & He2 & Hu2 & Hl2 & Hc2 & Ht2 & Hz2 & Hd2 & Hf2 & Hs2 & Hg2).
  rewrite bind_singleton in Hl1, Hc1, Ht1. rewrite bind_singleton in Hz1.
  unfold processed. rewrite !fmap_app, !bind_cons, !fmap_app.
  split; [by rewrite Hn2, Hn1, app_assoc |].
  split; [by rewrite He2, He1, app_assoc |].
  split.
  { intros x. rewrite Hu2, Hu1, elem_of_app. tauto. }
  split; [by rewrite Hl1, Hl2 |]. split; [by rewrite Hc1, Hc2 |].
  split; [by rewrite Ht1, Ht2 |]. split; [by rewrite Hz1, Hz2 |].
  split.
  { apply NoDup_app. split; [done |]. split; [| done].
    intros x Hx1 Hx2. apply (Hf2 x Hx2). apply Hu1. by right. }
  split.
  { intros x [Hx | Hx]%elem_of_app; [by apply Hf1 |].
    intros Hused. apply (Hf2 x Hx). apply Hu1. by left. }
  split.
  { apply Forall_app. split.
    - eapply Forall_impl; [exact Hs1 |]. intros e (? & Hsrc & Htgt).
      rewrite !elem_of_app. tauto.
    - eapply Forall_impl; [exact Hs2 |]. intros e (? & Hsrc & Htgt).
      rewrite !elem_of_app. tauto. }
  intros Hp [Hk1 Hk2]%Forall_cons.
  rewrite Hg1, Hg2; [done | done | done | done |]. by constructor.
Qed.

Lemma process_children_spec node_id depth cs :
  Forall (fun child => forall st, exists st' nn ne,
            process_node child (Some node_id) (S depth) st = Some st' /\
            processed (Some node_id) (S depth) [child] st st' nn ne) cs ->
  forall st, exists st' nn ne,
    process_children node_id depth cs st = Some st' /\
    processed (Some node_id) (S depth) cs st st' nn ne.
Proof.
  induction 1 as [|child cs Hchild _ IH]; intros st.
  - exists st, [], []. split; [done | apply processed_nil].
  - destruct (Hchild st) as (st1 & nn1 & ne1 & Hrun1 & Hpost1).
    destruct (IH st1) as (st2 & nn2 & ne2 & Hrun2 & Hpost2).
    exists st2, (nn1 ++ nn2), (ne1 ++ ne2). split.
    + simpl. rewrite Hrun1. simpl. exact Hrun2.
    + by eapply processed_cons.
Qed.

Lemma inner_keywords_node d cs :
  inner_keywords (mkNode d cs) ->
  (cs <> [] -> keyword d <> "") /\ Forall inner_keywords cs.
Proof.
  unfold inner_keywords. simpl. intros [Hroot Hrest]%Forall_cons.
  split; [exact Hroot |]. by apply Forall_bind in Hrest.
Qed.

(** What [process_node] does for one tree: it always finishes, adds one graph
    node per tree node, the first of them for the root of the tree with the
    first free id, and the edges below. *)
Lemma process_node_spec node : forall parent_id depth st,
  exists st' n0 nn ne,
    process_node node parent_id depth st = Some st' /\
    processed parent_id depth [node] st st' (n0 :: nn) ne /\
    (parent_given parent_id = false -> Forall (fun e => target e ∈ agraph_id <$> nn) ne) /\
    (exists m, agraph_id n0 = candidate (clean_id (keyword (data node))) m /\
               forall j, j < m -> candidate (clean_id (keyword (data node))) j ∈ used_ids st) /\
    (parent_given parent_id = false -> inner_keywords node ->
       target <$> ne = agraph_id <$> nn).
Proof.
  induction node as [d cs IH] using Node_induction. intros parent_id depth st.
  rewrite process_node_unfold.
  destruct (unique_id_spec (used_ids st) (clean_id (keyword d))) as (m & Hid & Hfree & Hmin).
  rewrite Hid. simpl.
  set (node_id := candidate (clean_id (keyword d)) m) in *.
  set (n0 := {| agraph_id := node_id; agraph_label := keyword d;
                agraph_size := if bool_decide (depth = 0) then 15
                               else if bool_decide (depth = 1) then 12 else 10;
                agraph_color := intent_color (intent d); agraph_title := tooltip_of d |}).
  set (e0 := match parent_id with
             | Some p => if Str.truthy p then [{| source := p; target := node_id |}] else []
             | None => []
             end).
  match goal with |- context [process_children _ _ _ ?s] => set (st1 := s) end.
  assert (He1 : edges st1 = edges st ++ e0).
  { unfold st1, e0. simpl. destruct parent_id as [p|]; [| by rewrite app_nil_r].
    destruct (Str.truthy p); [done | by rewrite app_nil_r]. }
  destruct (process_children_spec node_id depth cs) with (st := st1)
    as (st' & nn & ne & Hrun & Hpost).
  { eapply Forall_impl; [exact IH |]. intros child Hchild st0.
    destruct (Hchild (Some node_id) (S depth) st0) as (st0' & c0 & cn & ce & ? & ? & _).
    by exists st0', (c0 :: cn), ce. }
  assert (Hbelow : (cs = [] -> nn = [] /\ ne = [])).
  { intros ->. by eapply processed_nil_inv. }
  destruct Hpost as (Hn & He & Hu & Hl & Hc & Ht & Hz & Hd & Hf & Hs & Hg).
  exists st', n0, nn, (e0 ++ ne). split; [exact Hrun |].
  assert (Hin1 : forall x, x ∈ used_ids st1 <-> x = node_id \/ x ∈ used_ids st).
  { intros x. unfold st1. simpl. by rewrite elem_of_union, elem_of_singleton. }
  assert (Hfresh : node_id ∉ agraph_id <$> nn).
  { intros Hin. apply (Hf _ Hin). apply Hin1. by left. }
  assert (Htargets : inner_keywords (mkNode d cs) -> target <$> ne = agraph_id <$> nn).
  { intros [Hroot Hkids]%inner_keywords_node.
    destruct cs as [|c cs']; [by destruct Hbelow as [-> ->] |].
    apply Hg; [| done]. simpl.
    apply truthy_candidate. rewrite truthy_clean_id.
    destruct (keyword d); [by destruct Hroot | done]. }
  split; [| split; [| split; [by exists m | ]]].
  - unfold processed. rewrite !bind_singleton. simpl all_nodes. simpl node_depths.
    rewrite !fmap_cons.
    assert (Hn1 : nodes st1 = nodes st ++ [n0]) by reflexivity.
    split; [by rewrite Hn, Hn1, <- app_assoc |].
    split; [by rewrite He, He1, <- app_assoc |].
    split.
    { intros x. rewrite Hu, Hin1, elem_of_cons. tauto. }
    split; [by rewrite Hl |]. split; [by rewrite Hc |]. split; [by rewrite Ht |].
    split; [by rewrite Hz |].
    split; [by constructor |].
    split.
    { intros x [-> | Hx]%elem_of_cons; [done |].
      intros Hused. apply (Hf x Hx). apply Hin1. by right. }
    split.
    { apply Forall_app. split.
      - unfold e0. destruct parent_id as [p|]; [| constructor].
        destruct (Str.truthy p) eqn:Hp; constructor; [| constructor].
        simpl. split; [done |]. split; [by left | left].
      - eapply Forall_impl; [exact Hs |]. intros e (Htrue & Hsrc & Htgt).
        split; [done |]. split; [| by right].
        right. destruct Hsrc as [[= ->] | Hsrc]; [left | by right]. }
    intros Hp [Hk _]%Forall_cons. rewrite fmap_app, (Htargets Hk).
    unfold e0. destruct parent_id as [p|]; [| done]. simpl in Hp. by rewrite Hp.
  - intros Hp. assert (e0 = []) as ->.
    { unfold e0. destruct parent_id as [p|]; [| done]. simpl in Hp. by rewrite Hp. }
    simpl. eapply Forall_impl; [exact Hs |]. by intros e (_ & _ & ?).
  - intros Hp Hk. rewrite fmap_app, (Htargets Hk).
    unfold e0. destruct parent_id as [p|]; [| done]. simpl in Hp. by rewrite Hp.
Qed.

(** X1: [clean_id] keeps the length of the text, produces only letters,
    digits and underscores, and changes nothing when applied again. *)
Theorem clean_id_shape text :
  String.length (clean_id text) = String.length text /\
  all_chars (fun c => Str.isalnum c || Ascii.eqb c "_") (clean_id text) = true /\
  clean_id (clean_id text) = clean_id text.
Proof.
  split; [apply length_map_chars |].
  unfold clean_id. induction text as [|c text [IH1 IH2]]; [done |].
  simpl. destruct (Str.isalnum c) eqn:Hc.
  - rewrite Hc. simpl. split; [exact IH1 | by rewrite IH2].
  - change (Str.isalnum "_") with false. simpl. split; [exact IH1 | by rewrite IH2].
Qed.

(** X2: the loop that makes a node id unique always ends: it returns the base
    id when that is free, otherwise the first free numbered id
    [base_id_k], all lower-numbered ones being taken; the id returned is not
    in use. *)
Theorem unique_id_first_free (used : gset string) base_id :
  exists node_id,
    unique_id used base_id = Some node_id /\
    (node_id ∉ used) /\
    (base_id ∉ used -> node_id = base_id) /\
    (base_id ∈ used ->
       exists k, 1 <= k /\ node_id = base_id +:+ "_" +:+ Str.of_nat k /\
         forall j, 1 <= j < k -> base_id +:+ "_" +:+ Str.of_nat j ∈ used).
Proof.
  destruct (unique_id_spec used base_id) as (m & Hrun & Hfree & Hmin).
  exists (candidate base_id m). split; [exact Hrun |]. split; [exact Hfree |]. split.
  - intros Hbase. destruct m as [|m]; [done |]. destruct Hbase. apply (Hmin 0). lia.
  - intros Hbase. destruct m as [|m]; [done |].
    exists (S m). split; [lia |]. split; [done |].
    intros [|j] Hj; [lia |]. apply (Hmin (S j)). lia.
Qed.

Lemma process_data_spec t :
  exists st' n0 nn ne,
    process_data_for_visualization t = Some (n0 :: nn, ne) /\
    processed None 0 [t] {| nodes := []; edges := []; used_ids := ∅ |} st' (n0 :: nn) ne /\
    Forall (fun e => target e ∈ agraph_id <$> nn) ne /\
    agraph_id n0 = clean_id (keyword (data t)) /\
    (inner_keywords t -> target <$> ne = agraph_id <$> nn).
Proof.
  destruct (process_node_spec t None 0 {| nodes := []; edges := []; used_ids := ∅ |})
    as (st' & n0 & nn & ne & Hrun & Hpost & Htargets & (m & Hid & Hmin) & Hspan).
  exists st', n0, nn, ne.
  pose proof Hpost as (Hn & He & _). simpl in Hn, He.
  split; [| split; [exact Hpost | split; [by apply Htargets | split; [| by apply Hspan]]]].
  - unfold process_data_for_visualization. rewrite Hrun. simpl. by rewrite Hn, He.
  - rewrite Hid. destruct m as [|m]; [done |].
    specialize (Hmin 0 ltac:(lia)). simpl in Hmin. by apply elem_of_empty in Hmin.
Qed.

(** X3: the graph builder always finishes and makes one graph node per tree
    node, parents before children: the label is the keyword, the colour
    that of the intent, the tooltip that of the node, and the size 15 for
    the root, 12 for its children and 10 below. *)
Theorem graph_one_node_per_tree_node t :
  exists ns es,
    process_data_for_visualization t = Some (ns, es) /\
    agraph_label <$> ns = (fun n => keyword (data n)) <$> all_nodes t /\
    agraph_color <$> ns = (fun n => intent_color (intent (data n))) <$> all_nodes t /\
    agraph_title <$> ns = (fun n => tooltip_of (data n)) <$> all_nodes t /\
    agraph_size <$> ns = size_at <$> node_depths 0 t.
Proof.
  destruct (process_data_spec t) as (st' & n0 & nn & ne & Hrun & Hpost & _).
  destruct Hpost as (_ & _ & _ & Hl & Hc & Ht & Hz & _).
  rewrite bind_singleton in Hl, Hc, Ht. rewrite bind_singleton in Hz.
  by exists (n0 :: nn), ne.
Qed.

(** X4: the ids of the graph nodes are pairwise distinct, whatever keywords
    the tree repeats, and every edge runs between two of them from a
    non-empty source id. *)
Theorem graph_ids_distinct t :
  exists ns es,
    process_data_for_visualization t = Some (ns, es) /\
    NoDup (agraph_id <$> ns) /\
    Forall (fun e => source e <> "" /\ source e ∈ agraph_id <$> ns /\
                     target e ∈ agraph_id <$> ns) es.
Proof.
  destruct (process_data_spec t) as (st' & n0 & nn & ne & Hrun & Hpost & _).
  destruct Hpost as (_ & _ & _ & _ & _ & _ & _ & Hd & _ & Hs & _).
  exists (n0 :: nn), ne. split; [exact Hrun |]. split; [exact Hd |].
  eapply Forall_impl; [exact Hs |]. intros e (Htrue & [? | Hsrc] & Htgt); [done |].
  split; [| done]. intros Hempty. by rewrite Hempty in Htrue.
Qed.

(** X5: when every node that has children has a non-empty keyword, the
    targets of the edges are the ids of all nodes but the root, each once
    and in order: every node except the root has exactly one incoming edge,
    so there is one edge less than there are nodes. *)
Theorem graph_edges_reach_every_child t :
  inner_keywords t ->
  exists ns es,
    process_data_for_visualization t = Some (ns, es) /\
    target <$> es = tail (agraph_id <$> ns) /\
    length es = length (all_nodes t) - 1.
Proof.
  intros Hk.
  destruct (process_data_spec t) as (st' & n0 & nn & ne & Hrun & Hpost & _ & _ & Hspan).
  exists (n0 :: nn), ne. split; [exact Hrun |]. split; [by apply Hspan |].
  destruct Hpost as (_ & _ & _ & Hl & _).
  rewrite bind_singleton in Hl.
  apply (f_equal length) in Hl. rewrite !length_fmap in Hl. rewrite <- Hl.
  specialize (Hspan Hk). apply (f_equal length) in Hspan.
  rewrite !length_fmap in Hspan. simpl. lia.
Qed.

Lemma graph_edges_reach_every_child_witness :
  inner_keywords (small_tree "seo") /\
  exists ns es,
    process_data_for_visualization (small_tree "seo") = Some (ns, es) /\
    target <$> es = tail (agraph_id <$> ns) /\
    length es = length (all_nodes (small_tree "seo")) - 1.
Proof.
  assert (Hk : inner_keywords (small_tree "seo")).
  { unfold inner_keywords. simpl. repeat constructor; done. }
  split; [exact Hk |]. exact (graph_edges_reach_every_child (small_tree "seo") Hk).
Defined.

(** X6: a root with an empty keyword gets the empty id, and then no edge
    starts or ends at it: the children of the root are left unconnected. *)
Theorem graph_empty_root_is_isolated t :
  keyword (data t) = "" ->
  exists n0 ns es,
    process_data_for_visualization t = Some (n0 :: ns, es) /\
    agraph_id n0 = "" /\
    Forall (fun e => source e <> agraph_id n0 /\ target e <> agraph_id n0) es.
Proof.
  intros Hempty.
  destruct (process_data_spec t) as (st' & n0 & nn & ne & Hrun & Hpost & Htargets & Hid & _).
  rewrite Hempty in Hid. simpl in Hid.
  exists n0, nn, ne. split; [exact Hrun |]. split; [exact Hid |].
  destruct Hpost as (_ & _ & _ & Hl & _ & _ & _ & Hd & _ & Hs & _).
  assert (Hfresh : agraph_id n0 ∉ agraph_id <$> nn) by by apply NoDup_cons in Hd as [? _].
  apply Forall_forall. intros e He.
  pose proof (proj1 (Forall_forall _ _) Hs e He) as (Htrue & _ & _).
  pose proof (proj1 (Forall_forall _ _) Htargets e He) as Htgt. simpl in Htgt.
  split; [rewrite Hid; intros Heq; by rewrite Heq in Htrue |].
  intros Heq. by rewrite Heq in Htgt.
Qed.

Lemma graph_empty_root_is_isolated_witness :
  keyword (data (small_tree "")) = "" /\
  exists n0 ns es,
    process_data_for_visualization (small_tree "") = Some (n0 :: ns, es) /\
    agraph_id n0 = "" /\
    Forall (fun e => source e <> agraph_id n0 /\ target e <> agraph_id n0) es.
Proof. split; [reflexivity |]. exact (graph_empty_root_is_isolated (small_tree "") eq_refl). Defined.

(** in the small tree with an empty seed only the grandchild is connected *)
Lemma small_tree_empty_seed_graph :
  (fun r : list AgraphNode * list AgraphEdge => (agraph_id <$> r.1, r.2))
    <$> process_data_for_visualization (small_tree "") =
  Some (["";  "seo_tips"; "seo_tips_1"; "seo_tips_2"],
        [{| source := "seo_tips"; target := "seo_tips_1" |}]).
Proof. vm_compute. reflexivity. Qed.

(** ** The exports *)

Lemma extract_keywords_spec node : forall depth path acc,
  extract_keywords node depth path acc =
  (acc.1 ++ ((fun n => keyword (data n)) <$> all_nodes node),
   acc.2 ++ ((fun n => csv_row (data n)) <$> all_nodes node)).
Proof.
  induction node as [d cs IH] using Node_induction. intros depth path acc. simpl.
  match goal with |- foldl ?f ?a cs = _ => set (step := f); set (acc1 := a) end.
  assert (Hloop : forall acc0,
    foldl step acc0 cs =
    (acc0.1 ++ ((fun n => keyword (data n)) <$> (cs ≫= all_nodes)),
     acc0.2 ++ ((fun n => csv_row (data n)) <$> (cs ≫= all_nodes)))).
  { clear acc1. induction IH as [|child cs Hchild _ IHcs]; intros acc0.
    - simpl. rewrite !app_nil_r. by destruct acc0.
    - simpl. rewrite IHcs. unfold step. rewrite Hchild. simpl.
      by rewrite !fmap_app, !app_assoc. }
  rewrite Hloop. unfold acc1. simpl. by rewrite <- !app_assoc.
Qed.

Lemma extracted_lists t :
  extracted t = ((fun n => keyword (data n)) <$> all_nodes t,
                 (fun n => csv_row (data n)) <$> all_nodes t).
Proof. unfold extracted. by rewrite extract_keywords_spec. Qed.

(** X7: the plain-text and the CSV export list every node of the tree once,
    parents before children: the keywords, and one row
    [keyword,intent,word count,"title"] per node; the two lists have as many
    entries as the tree has nodes. *)
Theorem exports_list_every_node t :
  extracted t = ((fun n => keyword (data n)) <$> all_nodes t,
                 (fun n => csv_row (data n)) <$> all_nodes t) /\
  length (extracted t).1 = length (all_nodes t) /\
  length (extracted t).2 = length (all_nodes t).
Proof.
  rewrite extracted_lists. simpl. by rewrite !length_fmap.
Qed.

(** ** The size of a generated tree *)

Lemma length_bind_bound {A B} (f : A -> list B) (l : list A) n :
  Forall (fun x => length (f x) <= n) l -> length (l ≫= f) <= length l * n.
Proof.
  induction 1 as [|x l Hx _ IH]; [done |].
  rewrite bind_cons, length_app. simpl. lia.
Qed.

Lemma length_all_nodes d ts : length (all_nodes (mkNode d ts)) = S (length (ts ≫= all_nodes)).
Proof. reflexivity. Qed.

Section TreeSize.
Variable G : Globals.
Variable env : environ.
Variable W : World.
Variable related : path -> string -> list string.
Variable depth : Z.
Variable custom_prompt : string.
Variable main_keyword : string.

Hypothesis related_at_most_ten : forall p keyword, length (related p keyword) <= 10.

Let below2 : nat := if bool_decide (depth >= 3)%Z then 3 else 1.
Let below1 : nat := if bool_decide (depth >= 2)%Z then 1 + 3 * below2 else 1.

Lemma second_level_sizes i keyword :
  Forall (fun n => length (all_nodes n) <= below2)
         (second_level G env W related depth custom_prompt i keyword).
Proof.
  unfold second_level. case_bool_decide; [| constructor].
  apply Forall_imap_intro. intros j kw2 _. rewrite length_all_nodes.
  unfold below2, third_level. case_bool_decide; [| simpl; lia].
  pose proof (length_bind_bound all_nodes
    (imap (fun k kw3 => mkNode (node_data G env W [i; j; k] kw3 false custom_prompt) [])
          (take 2 (related [i; j] kw2))) 1) as Hb.
  rewrite length_imap, length_take in Hb.
  specialize (Hb ltac:(by apply Forall_imap_intro)). lia.
Qed.

Lemma first_level_sizes :
  Forall (fun n => length (all_nodes n) <= below1)
         (first_level G env W related depth custom_prompt main_keyword).
Proof.
  unfold first_level. apply Forall_imap_intro. intros i kw _. rewrite length_all_nodes.
  pose proof (length_bind_bound all_nodes _ _ (second_level_sizes i kw)) as Hb.
  pose proof (length_second_level G env W related depth custom_prompt i kw) as Hl.
  unfold below1. unfold second_level in *. case_bool_decide; [| simpl; lia].
  assert (length (imap (fun j sub_keyword =>
            mkNode (node_data G env W [i; j] sub_keyword false custom_prompt)
                   (third_level G env W related depth custom_prompt i j sub_keyword))
            (take 3 (related [i] kw))) * below2 <= 3 * below2) by (apply Nat.mul_le_mono_r; lia).
  lia.
Qed.

Lemma structure_value_size :
  length (all_nodes (structure_value G env W related depth custom_prompt main_keyword))
  <= 1 + 10 * below1.
Proof.
  unfold structure_value. rewrite length_all_nodes.
  pose proof (length_bind_bound all_nodes _ _ first_level_sizes) as Hb.
  assert (Hl : length (first_level G env W related depth custom_prompt main_keyword) <= 10).
  { unfold first_level. rewrite length_imap. apply related_at_most_ten. }
  assert (length (first_level G env W related depth custom_prompt main_keyword) * below1
          <= 10 * below1) by (apply Nat.mul_le_mono_r; lia).
  lia.
Qed.

End TreeSize.

Lemma keyword_tree_size_bound G env W main_keyword depth custom_prompt :
  exists t, keyword_tree G env W main_keyword depth custom_prompt = Some t /\
    length (all_nodes t) <=
      (if bool_decide (depth < 2)%Z then 11
       else if bool_decide (depth < 3)%Z then 41 else 101).
Proof.
  eexists. split; [apply keyword_tree_value |].
  match goal with |- context [all_nodes ?v] => set (t := v) end.
  pose proof (structure_value_size G env W
    (fun p keyword => generate_related_keywords G env W p keyword None)
    depth custom_prompt main_keyword
    (fun p keyword => proj2 (generate_related_keywords_length G env W p keyword None))) as Hsize.
  fold t in Hsize. cbv zeta in Hsize.
  repeat case_bool_decide; lia.
Qed.

(** X8: the tree returned by [generate_keyword_structure] has at most 101
    nodes (1 + 10 + 30 + 60), at most 41 when the depth is below 3 and at
    most 11 when it is below 2. *)
Theorem keyword_tree_size G env W main_keyword depth custom_prompt :
  exists t, keyword_tree G env W main_keyword depth custom_prompt = Some t /\
    length (all_nodes t) <=
      (if bool_decide (depth < 2)%Z then 11
       else if bool_decide (depth < 3)%Z then 41 else 101) /\
    length (all_nodes t) <= 101.
Proof.
  destruct (keyword_tree_size_bound G env W main_keyword depth custom_prompt)
    as (t & Ht & Hsize).
  exists t. split; [exact Ht |]. split; [exact Hsize |].
  repeat case_bool_decide; lia.
Qed.

(** ** Generated trees in the graph builder *)

Lemma truthy_join_two sep x y l :
  Str.truthy sep = true -> Str.truthy (Str.join sep (x :: y :: l)) = true.
Proof. intros Hsep. simpl. apply truthy_append_r. by destruct sep. Qed.

(** the rule engine never proposes an empty keyword *)
Lemma rule_related_keywords_truthy W c keyword i :
  Forall (fun k => Str.truthy k = true) (rule_related_keywords W c keyword i).
Proof.
  unfold rule_related_keywords. cbv zeta. apply Forall_take.
  rewrite list_of_set_perm. apply Forall_forall. intros k Hk.
  apply (proj1 (elem_of_remove_dups _ _)) in Hk. rewrite !elem_of_app in Hk. destruct Hk as [Hk | [Hk | Hk]].
  - apply list_elem_of_fmap in Hk as (modifier & -> & _).
    apply truthy_append_r. reflexivity.
  - case_bool_decide as Hwords; [| by apply elem_of_nil in Hk].
    apply elem_of_lookup_imap in Hk as (j & word & -> & Hj).
    match goal with |- context [<[j := ?w]> _] => set (new_word := w) end.
    pose proof (length_insert (Str.split keyword) j new_word) as Hlen.
    destruct (<[j := new_word]> (Str.split keyword)) as [|x [|y l]];
      simpl in Hlen; [lia | lia |].
    by apply truthy_join_two.
  - repeat (apply elem_of_cons in Hk as [-> | Hk]; [by apply truthy_append_r |]).
    by apply elem_of_nil in Hk.
Qed.

Lemma generate_related_keywords_no_credentials G W p keyword :
  generate_related_keywords G ∅ W p keyword None =
  rule_related_keywords W {| role := RelatedKeywords; site := p |} keyword (rule_intent keyword).
Proof.
  unfold generate_related_keywords, determine_intent.
  rewrite !env_set_empty, !andb_false_r. reflexivity.
Qed.

Lemma structure_value_keywords G env W related depth custom_prompt main_keyword :
  Str.truthy main_keyword = true ->
  (forall p keyword, Forall (fun k => Str.truthy k = true) (related p keyword)) ->
  Forall (fun n => Str.truthy (keyword (data n)) = true)
         (all_nodes (structure_value G env W related depth custom_prompt main_keyword)).
Proof.
  intros Hmain Hrel.
  assert (Hin : forall p kw n (l : list string) k,
            l ⊆ related p kw -> l !! n = Some k -> Str.truthy k = true).
  { intros p kw n l k Hsub Hk.
    apply (proj1 (Forall_forall _ _) (Hrel p kw)).
    apply Hsub. by eapply list_elem_of_lookup_2. }
  assert (Htake : forall n (l : list string), take n l ⊆ l).
  { intros n l x Hx. apply elem_of_take in Hx as (i & Hi & _).
    by eapply list_elem_of_lookup_2. }
  unfold structure_value. simpl. constructor; [done |].
  apply Forall_bind. unfold first_level. apply Forall_imap_intro. intros i kw Hkw.
  simpl. constructor; [by eapply (Hin [] main_keyword i _ kw) |].
  apply Forall_bind. unfold second_level. case_bool_decide; [| constructor].
  apply Forall_imap_intro. intros j kw2 Hkw2.
  simpl. constructor; [by eapply (Hin [i] kw j _ kw2 (Htake _ _)) |].
  apply Forall_bind. unfold third_level. case_bool_decide; [| constructor].
  apply Forall_imap_intro. intros k kw3 Hkw3.
  simpl. constructor; [by eapply (Hin [i; j] kw2 k _ kw3 (Htake _ _)) | constructor].
Qed.

(** X9: in a process without credentials, for a non-empty seed keyword, the
    mind map of the generated tree is connected: the graph builder gives
    pairwise distinct ids, at most 101 nodes and exactly one edge less than
    nodes, every node but the root being the target of one edge. *)
Theorem generated_tree_graph_is_connected G W main_keyword depth custom_prompt :
  main_keyword <> "" ->
  exists t ns es,
    keyword_tree G ∅ W main_keyword depth custom_prompt = Some t /\
    process_data_for_visualization t = Some (ns, es) /\
    NoDup (agraph_id <$> ns) /\
    length ns = length (all_nodes t) /\ length ns <= 101 /\
    target <$> es = tail (agraph_id <$> ns) /\
    S (length es) = length ns.
Proof.
  intros Hmain.
  destruct (keyword_tree_size_bound G ∅ W main_keyword depth custom_prompt)
    as (t & Ht & Hsize).
  assert (Hsize' : length (all_nodes t) <= 101) by (repeat case_bool_decide; lia).
  clear Hsize.
  assert (Hkw : inner_keywords t).
  { rewrite keyword_tree_value in Ht. injection Ht as <-.
    unfold inner_keywords. eapply Forall_impl.
    - apply structure_value_keywords; [by destruct main_keyword |].
      intros p kw. rewrite generate_related_keywords_no_credentials.
      apply rule_related_keywords_truthy.
    - intros n Hn _ Hempty. simpl in Hn. by rewrite Hempty in Hn. }
  destruct (process_data_spec t) as (st' & n0 & nn & ne & Hrun & Hpost & _ & _ & Hspan).
  destruct Hpost as (_ & _ & _ & Hlabels & _ & _ & _ & Hdistinct & _).
  rewrite bind_singleton in Hlabels.
  apply (f_equal length) in Hlabels. rewrite !length_fmap in Hlabels.
  specialize (Hspan Hkw). pose proof (f_equal length Hspan) as Hlen.
  rewrite !length_fmap in Hlen.
  exists t, (n0 :: nn), ne.
  split; [exact Ht |]. split; [exact Hrun |]. split; [exact Hdistinct |].
  split; [exact Hlabels |]. split; [lia |]. split; [exact Hspan |]. simpl. lia.
Qed.

Lemma generated_tree_graph_is_connected_witness :
  "seo" <> "" /\
  exists t ns es,
    keyword_tree bare_globals ∅ quiet_world "seo" 2 "" = Some t /\
    process_data_for_visualization t = Some (ns, es) /\
    NoDup (agraph_id <$> ns) /\
    length ns = length (all_nodes t) /\ length ns <= 101 /\
    target <$> es = tail (agraph_id <$> ns) /\
    S (length es) = length ns.
Proof.
  split; [discriminate |].
  apply (generated_tree_graph_is_connected bare_globals quiet_world "seo" 2 "").
  discriminate.
Defined.

(** ** More on the rule engine *)

Lemma append_inj_instance keyword : Inj (=) (=) (fun suffix => keyword +:+ suffix).
Proof. intros a b. apply append_inj_l. Qed.

Lemma rule_related_keywords_at_least_five W c keyword i :
  5 <= length (rule_related_keywords W c keyword i) <= 10.
Proof.
  split; [| apply rule_related_keywords_length].
  unfold rule_related_keywords. cbv zeta. rewrite take_min_length, length_take.
  match goal with |- context [list_of_set ?o ?l] => set (all := l); set (order := o) end.
  rewrite (Permutation_length (list_of_set_perm order all)).
  assert (Hfive : (fun suffix => keyword +:+ suffix) <$>
            [" examples"; " tools"; " services"; " tips"; " strategies"] ⊆+ remove_dups all).
  { apply NoDup_submseteq.
    - apply NoDup_fmap_2; [apply append_inj_instance |].
      apply (bool_decide_unpack _). by vm_compute.
    - intros x Hx. apply elem_of_remove_dups. unfold all.
      rewrite !elem_of_app. right. right. exact Hx. }
  apply submseteq_length in Hfive. simpl in Hfive. lia.
Qed.

(** X10: the rule engine proposes between 5 and 10 related keywords, all
    different from each other and none empty. *)
Theorem rule_related_keywords_distinct W c keyword i :
  5 <= length (rule_related_keywords W c keyword i) <= 10 /\
  NoDup (rule_related_keywords W c keyword i) /\
  Forall (fun k => k <> "") (rule_related_keywords W c keyword i).
Proof.
  split; [| split].
  - apply rule_related_keywords_at_least_five.
  - unfold rule_related_keywords. cbv zeta.
    eapply sublist_NoDup; [| apply sublist_take].
    rewrite list_of_set_perm. apply NoDup_remove_dups.
  - eapply Forall_impl; [apply rule_related_keywords_truthy |].
    intros k Hk ->. discriminate Hk.
Qed.

Lemma length_if_le {A} (b : bool) (l : list A) n :
  length l <= n -> length (if b then l else []) <= n.
Proof. destruct b; simpl; lia. Qed.

Lemma generate_title_truthy G env W c keyword i custom_prompt :
  Str.truthy (generate_title G env W c keyword i custom_prompt) = true.
Proof.
  unfold generate_title. cbv zeta.
  repeat match goal with
  | |- context [if Str.truthy ?t then _ else _] =>
      let Ht := fresh "Ht" in destruct (Str.truthy t) eqn:Ht; [exact Ht |]
  end.
  apply rule_title_truthy.
Qed.


(** every node below the root carries the data of a call with [is_root]
    false *)
Lemma structure_value_descendants G env W related depth custom_prompt main_keyword :
  Forall (fun n => exists p, data n = node_data G env W p (keyword (data n)) false custom_prompt)
         (children (structure_value G env W related depth custom_prompt main_keyword)
            ≫= all_nodes).
Proof.
  unfold structure_value. simpl.
  apply Forall_bind. unfold first_level. apply Forall_imap_intro. intros i kw _.
  simpl. constructor; [by eexists |].
  apply Forall_bind. unfold second_level. case_bool_decide; [| constructor].
  apply Forall_imap_intro. intros j kw2 _.
  simpl. constructor; [by eexists |].
  apply Forall_bind. unfold third_level. case_bool_decide; [| constructor].
  apply Forall_imap_intro. intros k kw3 _.
  simpl. constructor; [by eexists | constructor].
Qed.

Lemma choice_lookup {A} (first : A) (others : list A) raw :
  (first :: others) !! (raw mod S (length others)) = Some (choice first others raw).
Proof.
  unfold choice, randbelow.
  destruct ((first :: others) !! (raw mod S (length others))) eqn:Hl; [reflexivity |].
  apply lookup_ge_None in Hl.
  pose proof (Nat.mod_upper_bound raw (S (length others))). simpl in Hl. lia.
Qed.

(** X12: without credentials the intent of every node below the root is the
    rule-based classification of that node's own keyword.  The root's
    intent is not: it is the entry of [INTENTS] that the random draw of
    [random.choice] points at, whatever the seed keyword says, so another
    seed gets the same root intent from the same draw. *)
Theorem descendant_intents_follow_keywords G W main_keyword depth custom_prompt :
  exists t, keyword_tree G ∅ W main_keyword depth custom_prompt = Some t /\
    INTENTS !! (raw_random W {| role := NodeIntent; site := [] |} 0 mod 3) =
      Some (intent (data t)) /\
    (forall other_keyword, exists t',
       keyword_tree G ∅ W other_keyword depth custom_prompt = Some t' /\
       intent (data t') = intent (data t)) /\
    Forall (fun n => intent (data n) = rule_intent (keyword (data n)))
           (children t ≫= all_nodes).
Proof.
  eexists. split; [apply keyword_tree_value |]. split; [| split].
  - change (intent (data (structure_value G ∅ W
              (fun p keyword => generate_related_keywords G ∅ W p keyword None)
              depth custom_prompt main_keyword)))
      with (choice Commercial [Informational; Navigational]
              (raw_random W {| role := NodeIntent; site := [] |} 0)).
    apply (choice_lookup Commercial [Informational; Navigational]).
  - intros other_keyword. eexists. split; [apply keyword_tree_value | reflexivity].
  - eapply Forall_impl; [apply structure_value_descendants |].
    intros n (p & Hn). rewrite Hn at 1. simpl.
    unfold determine_intent. by rewrite !env_set_empty, !andb_false_r.
Qed.

(** X13: without credentials the tree is full: the root has 5 to 10
    children, every first-level node has exactly 3 children when the depth
    is at least 2 (none otherwise), and every second-level node exactly 2
    when the depth is at least 3 (none otherwise). *)
Theorem rule_only_tree_is_full G W main_keyword depth custom_prompt :
  exists t, keyword_tree G ∅ W main_keyword depth custom_prompt = Some t /\
    5 <= length (children t) <= 10 /\
    Forall (fun c1 => length (children c1) = if bool_decide (depth >= 2)%Z then 3 else 0)
           (level 1 t) /\
    Forall (fun c2 => length (children c2) = if bool_decide (depth >= 3)%Z then 2 else 0)
           (level 2 t).
Proof.
  eexists. split; [apply keyword_tree_value |].
  assert (Hfive : forall p kw, 5 <= length (generate_related_keywords G ∅ W p kw None) <= 10).
  { intros p kw. rewrite generate_related_keywords_no_credentials.
    apply rule_related_keywords_at_least_five. }
  unfold structure_value, first_level. simpl children. split; [by rewrite length_imap |].
  split.
  - simpl level. apply Forall_bind, Forall_imap_intro. intros i kw _.
    constructor; [| constructor]. simpl. unfold second_level.
    case_bool_decide; [| done]. rewrite length_imap, length_take.
    specialize (Hfive [i] kw). lia.
  - simpl level. apply Forall_bind, Forall_imap_intro. intros i kw _. simpl.
    apply Forall_bind. unfold second_level.
    destruct (bool_decide (depth >= 2)%Z); [| constructor].
    apply Forall_imap_intro. intros j kw2 _.
    constructor; [| constructor]. simpl. unfold third_level.
    destruct (bool_decide (depth >= 3)%Z); [| done].
    rewrite length_imap, length_take.
    specialize (Hfive [i; j] kw2). lia.
Qed.

(** ** Strings *)

Lemma append_cons c a b : String c a +:+ b = String c (a +:+ b).
Proof. reflexivity. Qed.

Lemma append_assoc a b c : (a +:+ b) +:+ c = a +:+ (b +:+ c).
Proof.
  induction a as [|x a IH]; [done |]. rewrite !append_cons. by f_equal.
Qed.

Lemma map_chars_append f a b :
  Str.map_chars f (a +:+ b) = Str.map_chars f a +:+ Str.map_chars f b.
Proof.
  induction a as [|x a IH]; [done |]. rewrite append_cons. simpl.
  rewrite append_cons. by f_equal.
Qed.

Lemma prefix_append a b : String.prefix a (a +:+ b) = true.
Proof.
  induction a as [|x a IH]; [by destruct b |].
  rewrite append_cons. simpl. destruct (ascii_dec x x); [exact IH | done].
Qed.

Lemma contains_unfold needle s :
  Str.contains needle s =
  String.prefix needle s ||
  match s with EmptyString => false | String _ s' => Str.contains needle s' end.
Proof. by destruct s. Qed.

Lemma contains_prefix needle s : String.prefix needle s = true -> Str.contains needle s = true.
Proof. intros Hp. by rewrite contains_unfold, Hp. Qed.

Lemma contains_append needle pre post :
  Str.contains needle (pre +:+ (needle +:+ post)) = true.
Proof.
  induction pre as [|x pre IH].
  - exact (contains_prefix needle (needle +:+ post) (prefix_append needle post)).
  - rewrite append_cons, contains_unfold, IH. apply orb_true_r.
Qed.

Lemma all_chars_append p a b :
  all_chars p (a +:+ b) = all_chars p a && all_chars p b.
Proof.
  induction a as [|x a IH]; [done |]. rewrite append_cons. simpl.
  by rewrite IH, andb_assoc.
Qed.

(** [lstrip] and [rstrip] only remove characters *)
Lemma all_chars_lstrip p s : all_chars p s = true -> all_chars p (Str.lstrip s) = true.
Proof.
  induction s as [|c s IH]; [done |]. simpl. intros [Hc Hs]%andb_true_iff.
  destruct (Str.isspace c); [by apply IH |]. simpl. by rewrite Hc, Hs.
Qed.

Lemma all_chars_rstrip p s : all_chars p s = true -> all_chars p (Str.rstrip s) = true.
Proof.
  induction s as [|c s IH]; [done |]. simpl. intros [Hc Hs]%andb_true_iff.
  specialize (IH Hs). destruct (Str.rstrip s) as [|c' r].
  - destruct (Str.isspace c); simpl; [done | by rewrite Hc].
  - simpl in *. by rewrite Hc, IH.
Qed.

Lemma all_chars_strip p s : all_chars p s = true -> all_chars p (Str.strip s) = true.
Proof. intros Hs. by apply all_chars_rstrip, all_chars_lstrip. Qed.

Definition starts_clean (s : string) : Prop :=
  match s with
  | EmptyString => True
  | String c _ => Str.isspace c = false
  end.

Lemma lstrip_starts_clean s : starts_clean (Str.lstrip s).
Proof.
  induction s as [|c s IH]; [done |]. simpl.
  destruct (Str.isspace c) eqn:Hc; [exact IH | exact Hc].
Qed.

Lemma lstrip_clean s : starts_clean s -> Str.lstrip s = s.
Proof. destruct s as [|c s]; [done |]. simpl. by intros ->. Qed.

Lemma rstrip_starts_clean s : starts_clean s -> starts_clean (Str.rstrip s).
Proof.
  destruct s as [|c s]; [done |]. simpl. intros Hc.
  destruct (Str.rstrip s); rewrite ?Hc; done.
Qed.

Lemma rstrip_cons c s :
  Str.rstrip (String c s) =
  match Str.rstrip s with
  | EmptyString => if Str.isspace c then EmptyString else String c EmptyString
  | r => String c r
  end.
Proof. reflexivity. Qed.

Lemma rstrip_idempotent s : Str.rstrip (Str.rstrip s) = Str.rstrip s.
Proof.
  induction s as [|c s IH]; [done |]. rewrite rstrip_cons.
  destruct (Str.rstrip s) as [|c' r] eqn:Hr.
  - destruct (Str.isspace c) eqn:Hc; [done |]. rewrite rstrip_cons. simpl. by rewrite Hc.
  - rewrite rstrip_cons, IH. done.
Qed.

Lemma strip_idempotent s : Str.strip (Str.strip s) = Str.strip s.
Proof.
  unfold Str.strip.
  rewrite (lstrip_clean (Str.rstrip (Str.lstrip s)))
    by apply rstrip_starts_clean, lstrip_starts_clean.
  apply rstrip_idempotent.
Qed.

Lemma strip_space_cons c s : Str.isspace c = true -> Str.strip (String c s) = Str.strip s.
Proof. intros Hc. unfold Str.strip. simpl. by rewrite Hc. Qed.

(** ** Answers of the providers *)

(** X14: an answer that contains the word "commercial" in any letter case,
    anywhere in the text, is read as Commercial, whatever else it mentions;
    the name of each category is read as that category. *)
Theorem parse_intent_answer_commercial_first (before word after : string) :
  Str.lower word = "commercial" ->
  parse_intent_answer (before +:+ (word +:+ after)) = Some Commercial /\
  (forall i, parse_intent_answer (intent_name i) = Some i).
Proof.
  intros Hword. split; [| by intros []].
  unfold parse_intent_answer, Str.lower. rewrite !map_chars_append.
  fold (Str.lower word). rewrite Hword. by rewrite contains_append.
Qed.

Lemma parse_intent_answer_commercial_first_witness :
  Str.lower "COMMERCIAL" = "commercial" /\
  parse_intent_answer "Non-COMMERCIAL, purely informational" = Some Commercial.
Proof.
  split; [reflexivity |].
  exact (proj1 (parse_intent_answer_commercial_first "Non-" "COMMERCIAL"
                  ", purely informational" eq_refl)).
Defined.

Definition no_comma (k : string) : bool := all_chars (fun c => negb (Ascii.eqb c ",")) k.

Lemma split_on_pieces sep s :
  Forall (fun piece => all_chars (fun c => negb (Ascii.eqb c sep)) piece = true)
         (Str.split_on sep s).
Proof.
  induction s as [|c s IH]; simpl; [by repeat constructor |].
  destruct (Ascii.eqb c sep) eqn:Hc; [by constructor |].
  destruct (Str.split_on sep s) as [|piece pieces]; [by repeat constructor; simpl; rewrite Hc |].
  apply Forall_cons in IH as [Hpiece Hpieces].
  constructor; [| done]. simpl. by rewrite Hc, Hpiece.
Qed.

(** X15: whatever the provider answers, the keyword list read from it has at
    most 10 entries, none of them empty, none with white space around it
    and none containing a comma. *)
Theorem parse_keyword_list_entries text :
  length (parse_keyword_list text) <= 10 /\
  Forall (fun k => k <> "" /\ Str.strip k = k /\ no_comma k = true)
         (parse_keyword_list text).
Proof.
  unfold parse_keyword_list. split; [rewrite length_take; lia |].
  apply Forall_take, Forall_forall. intros k Hk.
  apply list_elem_of_filter in Hk as [Htrue Hk].
  apply list_elem_of_fmap in Hk as (piece & -> & Hpiece).
  split; [by destruct (Str.strip piece) |].
  split; [apply strip_idempotent |].
  apply all_chars_strip.
  exact (proj1 (Forall_forall _ _) (split_on_pieces "," text) piece Hpiece).
Qed.

Lemma split_on_whole sep s :
  all_chars (fun c => negb (Ascii.eqb c sep)) s = true -> Str.split_on sep s = [s].
Proof.
  induction s as [|c s IH]; [done |]. simpl. intros [Hc Hs]%andb_true_iff.
  apply negb_true_iff in Hc. by rewrite Hc, (IH Hs).
Qed.

Lemma split_on_append sep a b :
  all_chars (fun c => negb (Ascii.eqb c sep)) a = true ->
  Str.split_on sep (a +:+ String sep b) = a :: Str.split_on sep b.
Proof.
  induction a as [|c a IH]; intros Ha.
  - change ("" +:+ String sep b) with (String sep b). simpl. by rewrite Ascii.eqb_refl.
  - simpl in Ha. apply andb_true_iff in Ha as [Hc Ha]. apply negb_true_iff in Hc.
    rewrite append_cons. simpl. by rewrite Hc, (IH Ha).
Qed.

Definition clean_keyword (k : string) : Prop :=
  k <> "" /\ Str.strip k = k /\ no_comma k = true.

Lemma no_comma_append a b : no_comma (a +:+ b) = no_comma a && no_comma b.
Proof. apply all_chars_append. Qed.

Lemma join_cons sep k k' ks :
  Str.join sep (k :: k' :: ks) = k +:+ sep +:+ Str.join sep (k' :: ks).
Proof. reflexivity. Qed.

Lemma strip_split_join ks : forall before k,
  no_comma before = true -> Forall clean_keyword (k :: ks) ->
  Str.strip <$> Str.split_on "," (before +:+ Str.join ", " (k :: ks)) =
  Str.strip (before +:+ k) :: ks.
Proof.
  induction ks as [|k' ks IH]; intros before k Hbefore [Hk Hks]%Forall_cons.
  - simpl Str.join. rewrite split_on_whole; [done |].
    destruct Hk as (_ & _ & Hk). fold (no_comma (before +:+ k)).
    by rewrite no_comma_append, Hbefore, Hk.
  - rewrite join_cons.
    change (", " +:+ Str.join ", " (k' :: ks))
      with (String "," (" " +:+ Str.join ", " (k' :: ks))).
    rewrite <- append_assoc, split_on_append.
    + rewrite fmap_cons. f_equal. rewrite (IH " " k' eq_refl Hks).
      f_equal. apply Forall_cons in Hks as [(_ & Hstrip & _) _].
      change (" " +:+ k') with (String " " k'). by rewrite strip_space_cons.
    + destruct Hk as (_ & _ & Hk). fold (no_comma (before +:+ k)).
      by rewrite no_comma_append, Hbefore, Hk.
Qed.

(** X16: a list of at most 10 keywords, each non-empty, without white space
    around it and without a comma, written as a comma-separated list, is
    read back unchanged. *)
Theorem parse_keyword_list_round_trip (keywords : list string) :
  length keywords <= 10 ->
  Forall clean_keyword keywords ->
  parse_keyword_list (Str.join ", " keywords) = keywords.
Proof.
  intros Hlen Hclean. unfold parse_keyword_list.
  destruct keywords as [|k ks]; [done |].
  pose proof (strip_split_join ks "" k eq_refl Hclean) as Hsplit.
  change ("" +:+ Str.join ", " (k :: ks)) with (Str.join ", " (k :: ks)) in Hsplit.
  change ("" +:+ k) with k in Hsplit. rewrite Hsplit.
  pose proof Hclean as [(_ & -> & _) _]%Forall_cons.
  assert (Hfilter : forall l, Forall clean_keyword l ->
            filter (fun k => Str.truthy k) l = l).
  { induction 1 as [|x l (Hx & _ & _) _ IH]; [done |].
    rewrite filter_cons_True by (by destruct x). by f_equal. }
  rewrite (Hfilter _ Hclean). by apply take_ge.
Qed.

Lemma parse_keyword_list_round_trip_witness :
  length ["seo tools"; "buy seo audit"; "seo pricing"] <= 10 /\
  Forall clean_keyword ["seo tools"; "buy seo audit"; "seo pricing"] /\
  parse_keyword_list "seo tools, buy seo audit, seo pricing" =
    ["seo tools"; "buy seo audit"; "seo pricing"].
Proof.
  assert (Hclean : Forall clean_keyword ["seo tools"; "buy seo audit"; "seo pricing"]).
  { repeat constructor; done. }
  split; [simpl; lia |]. split; [exact Hclean |].
  exact (parse_keyword_list_round_trip ["seo tools"; "buy seo audit"; "seo pricing"]
           ltac:(simpl; lia) Hclean).
Defined.

(** a text that [strip] leaves alone and that is not empty *)
Definition stripped (x : string) : Prop := x <> "" /\ Str.strip x = x.

Definition complete_record (r : Competitor) : Prop :=
  stripped (comp_title r) /\ stripped (url r).

Definition listing_state_ok (st : string * string * list Competitor) : Prop :=
  Str.strip st.1.1 = st.1.1 /\ Forall complete_record st.2.

Lemma competitor_line_keeps st line :
  listing_state_ok st -> listing_state_ok (competitor_line st line).
Proof.
  destruct st as [[t u] comps]. intros [Ht Hcomps]. simpl in Ht, Hcomps.
  unfold competitor_line.
  destruct (String.prefix "Title" (Str.strip line) && Str.contains ":" (Str.strip line)).
  { split; [apply strip_idempotent | done]. }
  destruct (String.prefix "URL" (Str.strip line) && Str.contains ":" (Str.strip line));
    [| by split].
  destruct (Str.truthy t) eqn:Htruthy; simpl; [| by split].
  destruct (Str.truthy (Str.strip (Str.after_first ":" (Str.strip line)))) eqn:Hurl;
    [| by split].
  split; [done |]. simpl. apply Forall_app. split; [done |].
  constructor; [| constructor]. split; simpl.
  - split; [by destruct t | done].
  - split; [by destruct (Str.strip (Str.after_first ":" (Str.strip line)))
           | apply strip_idempotent].
Qed.

Lemma competitor_lines_keep lines : forall st,
  listing_state_ok st -> listing_state_ok (foldl competitor_line st lines).
Proof.
  induction lines as [|line lines IH]; intros st Hst; [done |].
  simpl. by apply IH, competitor_line_keeps.
Qed.

(** X17: whatever the provider answers, the competitor list read from it
    has at most 3 records, and every record has a non-empty title and a
    non-empty URL without white space around them. *)
Theorem parse_competitor_listing_records text :
  length (parse_competitor_listing text) <= 3 /\
  Forall complete_record (parse_competitor_listing text).
Proof.
  unfold parse_competitor_listing. split; [rewrite length_take; lia |].
  apply Forall_take.
  apply (competitor_lines_keep (Str.split_on (ascii_of_nat 10) text) ("", "", [])).
  by split.
Qed.

Lemma all_chars_impl (p q : ascii -> bool) s :
  (forall c, p c = true -> q c = true) -> all_chars p s = true -> all_chars q s = true.
Proof.
  intros Hpq. induction s as [|c s IH]; [done |]. simpl.
  intros [Hc Hs]%andb_true_iff. by rewrite (Hpq c Hc), (IH Hs).
Qed.

Lemma of_nat_digits n : all_chars Str.isdigit (Str.of_nat n) = true.
Proof.
  unfold Str.of_nat. generalize (Nat.to_uint n). intros d.
  induction d; simpl; try done; exact IHd.
Qed.

Lemma digit_is_not c sep : Str.isdigit sep = false -> Str.isdigit c = true ->
  negb (Ascii.eqb c sep) = true.
Proof.
  intros Hsep Hc. apply negb_true_iff, Ascii.eqb_neq. intros ->. congruence.
Qed.

Lemma of_nat_without sep n :
  Str.isdigit sep = false ->
  all_chars (fun c => negb (Ascii.eqb c sep)) (Str.of_nat n) = true.
Proof.
  intros Hsep. eapply all_chars_impl; [| apply of_nat_digits].
  intros c. by apply digit_is_not.
Qed.

Lemma after_first_append sep a b :
  all_chars (fun c => negb (Ascii.eqb c sep)) a = true ->
  Str.after_first sep (a +:+ String sep b) = b.
Proof.
  induction a as [|c a IH]; intros Ha.
  - change ("" +:+ String sep b) with (String sep b). simpl. by rewrite Ascii.eqb_refl.
  - simpl in Ha. apply andb_true_iff in Ha as [Hc Ha]. apply negb_true_iff in Hc.
    rewrite append_cons. simpl. by rewrite Hc, (IH Ha).
Qed.

Lemma rstrip_append a b : b <> "" -> Str.rstrip b = b -> Str.rstrip (a +:+ b) = a +:+ b.
Proof.
  intros Hb Hrb. induction a as [|c a IH]; [exact Hrb |].
  rewrite append_cons, rstrip_cons, IH.
  destruct (a +:+ b) eqn:Hab; [| done]. by destruct a, b.
Qed.

Lemma stripped_rstrip x : stripped x -> Str.rstrip x = x.
Proof.
  intros [_ Hx]. rewrite <- Hx at 1. unfold Str.strip.
  rewrite rstrip_idempotent. exact Hx.
Qed.

Lemma stripped_truthy x : stripped x -> Str.truthy x = true.
Proof. intros [Hx _]. by destruct x. Qed.

(** a line that starts with a letter and ends with a stripped text is not
    changed by [strip] *)
Lemma strip_line c a x :
  Str.isspace c = false -> stripped x -> Str.strip (String c a +:+ x) = String c a +:+ x.
Proof.
  intros Hc Hx. unfold Str.strip. rewrite append_cons. simpl Str.lstrip. rewrite Hc.
  rewrite <- append_cons. apply rstrip_append; [apply Hx | by apply stripped_rstrip].
Qed.

Definition numbered_line (label : string) (i : nat) (x : string) : string :=
  (label +:+ " " +:+ Str.of_nat i) +:+ String ":" (String " " x).

Lemma numbered_line_after label i x :
  all_chars (fun c => negb (Ascii.eqb c ":")) label = true ->
  Str.after_first ":" (numbered_line label i x) = String " " x.
Proof.
  intros Hlabel. unfold numbered_line. apply after_first_append.
  rewrite !all_chars_append, Hlabel. simpl. by rewrite of_nat_without.
Qed.

Lemma numbered_line_contains label i x : Str.contains ":" (numbered_line label i x) = true.
Proof. unfold numbered_line. apply (contains_append ":" _ (String " " x)). Qed.

Lemma numbered_line_strip c label i x :
  Str.isspace c = false -> stripped x ->
  Str.strip (numbered_line (String c label) i x) = numbered_line (String c label) i x.
Proof.
  intros Hc Hx.
  assert (Heq : numbered_line (String c label) i x =
                String c (label +:+ " " +:+ Str.of_nat i +:+ ": ") +:+ x).
  { unfold numbered_line.
    change (String c (label +:+ " " +:+ Str.of_nat i +:+ ": "))
      with (String c label +:+ (" " +:+ (Str.of_nat i +:+ ": "))).
    rewrite !append_assoc. reflexivity. }
  rewrite Heq. by apply strip_line.
Qed.

Lemma numbered_line_one_line label i x :
  all_chars (fun c => negb (Ascii.eqb c (ascii_of_nat 10))) label = true ->
  all_chars (fun c => negb (Ascii.eqb c (ascii_of_nat 10))) x = true ->
  all_chars (fun c => negb (Ascii.eqb c (ascii_of_nat 10))) (numbered_line label i x) = true.
Proof.
  intros Hlabel Hx. unfold numbered_line.
  rewrite !all_chars_append, Hlabel. simpl. by rewrite of_nat_without, Hx.
Qed.

Definition one_line (x : string) : bool :=
  all_chars (fun c => negb (Ascii.eqb c (ascii_of_nat 10))) x.

(** a record that can be written on a "Title" and a "URL" line *)
Definition listable (r : Competitor) : Prop :=
  (stripped (comp_title r) /\ one_line (comp_title r) = true) /\
  (stripped (url r) /\ one_line (url r) = true).

Lemma competitor_listing_cons i r rs :
  competitor_listing i (r :: rs) =
  numbered_line "Title" i (comp_title r) +:+
  String (ascii_of_nat 10)
    (numbered_line "URL" i (url r) +:+
     String (ascii_of_nat 10) (String (ascii_of_nat 10) (competitor_listing (S i) rs))).
Proof.
  simpl competitor_listing. unfold numbered_line, Str.newline.
  rewrite !append_assoc. reflexivity.
Qed.

Lemma split_on_sep_cons sep b :
  Str.split_on sep (String sep b) = "" :: Str.split_on sep b.
Proof. simpl. by rewrite Ascii.eqb_refl. Qed.

Lemma title_line_read i t u comps :
  stripped t ->
  competitor_line ("", u, comps) (numbered_line "Title" i t) = (t, u, comps).
Proof.
  intros Ht. unfold competitor_line.
  rewrite (numbered_line_strip "T" "itle" i t eq_refl Ht).
  rewrite numbered_line_contains, (numbered_line_after "Title" i t eq_refl).
  change (String.prefix "Title" (numbered_line "Title" i t)) with true. simpl.
  rewrite strip_space_cons by done. by destruct Ht as [_ ->].
Qed.

Lemma url_line_read i t u comps :
  stripped t -> stripped u ->
  competitor_line (t, "", comps) (numbered_line "URL" i u) =
  ("", "", comps ++ [{| comp_title := t; url := u |}]).
Proof.
  intros Ht Hu. unfold competitor_line.
  rewrite (numbered_line_strip "U" "RL" i u eq_refl Hu).
  rewrite numbered_line_contains, (numbered_line_after "URL" i u eq_refl).
  change (String.prefix "Title" (numbered_line "URL" i u)) with false.
  change (String.prefix "URL" (numbered_line "URL" i u)) with true. simpl.
  rewrite strip_space_cons by done. destruct Hu as [Hu ->].
  rewrite (stripped_truthy t Ht). by destruct u.
Qed.

Lemma empty_line_read st : competitor_line st "" = st.
Proof. by destruct st as [[t u] comps]. Qed.

Lemma foldl_step {A B} (f : A -> B -> A) a x l : foldl f a (x :: l) = foldl f (f a x) l.
Proof. reflexivity. Qed.

Lemma listing_lines records : forall i comps,
  Forall listable records ->
  foldl competitor_line ("", "", comps)
        (Str.split_on (ascii_of_nat 10) (competitor_listing i records)) =
  ("", "", comps ++ records).
Proof.
  induction records as [|r records IH]; intros i comps Hrecords.
  - simpl. by rewrite app_nil_r.
  - apply Forall_cons in Hrecords as [[[Ht Ht1] [Hu Hu1]] Hrecords].
    rewrite competitor_listing_cons.
    rewrite split_on_append by (by apply numbered_line_one_line).
    rewrite split_on_append by (by apply numbered_line_one_line).
    rewrite split_on_sep_cons, !foldl_step.
    rewrite title_line_read, url_line_read, empty_line_read by done.
    rewrite IH by done. rewrite <- app_assoc. by destruct r.
Qed.

(** X18: the listing the prompt asks for is read back: records whose titles
    and URLs are non-empty single lines without white space around them,
    written as "Title i: ..." and "URL i: ..." lines, come back as the
    first three of them, whatever colons the titles and URLs contain. *)
Theorem parse_competitor_listing_round_trip (records : list Competitor) :
  Forall listable records ->
  parse_competitor_listing (competitor_listing 1 records) = take 3 records.
Proof.
  intros Hrecords. unfold parse_competitor_listing.
  by rewrite (listing_lines records 1 [] Hrecords).
Qed.

Definition sample_records : list Competitor :=
  [{| comp_title := "SEO Basics: A Guide"; url := "https://moz.com/seo" |};
   {| comp_title := "Learn SEO"; url := "https://ahrefs.com/blog/seo" |}].

Lemma parse_competitor_listing_round_trip_witness :
  Forall listable sample_records /\
  parse_competitor_listing (competitor_listing 1 sample_records) = sample_records.
Proof.
  assert (Hok : Forall listable sample_records).
  { repeat constructor; done. }
  split; [exact Hok |].
  exact (parse_competitor_listing_round_trip sample_records Hok).
Defined.

(** ** Connection tests *)

Lemma length_append a b : String.length (a +:+ b) = String.length a + String.length b.
Proof. induction a as [|c a IH]; [done |]. rewrite append_cons. simpl. by rewrite IH. Qed.

Lemma length_first_chars n s : String.length (Str.first_chars n s) <= n.
Proof.
  revert s. induction n as [|n IH]; intros [|c s]; simpl; try lia.
  specialize (IH s). lia.
Qed.

#[local] Arguments Str.first_chars : simpl never.

(** X19: the OpenAI connection test reports success exactly when a key is
    set, the package is installed and the call either completed or failed
    with an error that mentions 429, quota, rate limit or capacity, even if
    that error also mentions auth, key or invalid; the error text is cut to
    100 characters, so the message never exceeds 136 characters. *)
Theorem test_openai_connection_verdict G env call :
  success (test_openai_connection G env call) =
    env_set env "OPENAI_API_KEY" && OPENAI_AVAILABLE G &&
    match call with
    | Completed => true
    | Raised e =>
        Str.contains "429" (Str.lower e) || Str.contains "quota" (Str.lower e)
        || Str.contains "rate limit" (Str.lower e) || Str.contains "capacity" (Str.lower e)
    end /\
  String.length (message (test_openai_connection G env call)) <= 136.
Proof.
  unfold test_openai_connection.
  destruct (env_set env "OPENAI_API_KEY"), (OPENAI_AVAILABLE G); simpl;
    try (split; [reflexivity | lia]).
  destruct call as [|e]; simpl; [split; [reflexivity | lia] |].
  destruct (Str.contains "429" (Str.lower e) || Str.contains "quota" (Str.lower e)
            || Str.contains "rate limit" (Str.lower e)
            || Str.contains "capacity" (Str.lower e)); simpl; [split; [reflexivity | lia] |].
  pose proof (length_first_chars 100 e) as Hcut. revert Hcut.
  generalize (Str.first_chars 100 e). intros cut Hcut.
  destruct (Str.contains "auth" (Str.lower e) || Str.contains "key" (Str.lower e)
            || Str.contains "invalid" (Str.lower e)); simpl;
    (split; [reflexivity |]); rewrite !length_append;
    revert Hcut; generalize (String.length cut); intros n Hn; simpl; lia.
Qed.

(** X20: the Gemini connection test reports success exactly when a key is
    set, the package is installed and the library call completed, or failed
    with an error that mentions 429, quota, rate limit or resource
    exhausted, or failed otherwise while the direct endpoint answered with
    status 200 or 429; without a key the result is the fixed failure
    "No Gemini API key provided", whatever the calls would do. *)
Theorem test_gemini_connection_verdict G env call endpoint :
  success (test_gemini_connection G env call endpoint) =
    env_set env "GEMINI_API_KEY" && GEMINI_AVAILABLE G &&
    match call with
    | Completed => true
    | Raised e =>
        Str.contains "429" (Str.lower e) || Str.contains "quota" (Str.lower e)
        || Str.contains "rate limit" (Str.lower e)
        || Str.contains "resource exhausted" (Str.lower e)
        || match endpoint with
           | Responded status_code _ =>
               bool_decide (status_code = 200) || bool_decide (status_code = 429)
           | Failed _ => false
           end
    end /\
  test_gemini_connection G ∅ call endpoint =
    {| success := false; message := "No Gemini API key provided" |}.
Proof.
  split; [| unfold test_gemini_connection; by rewrite env_set_empty].
  unfold test_gemini_connection.
  destruct (env_set env "GEMINI_API_KEY"), (GEMINI_AVAILABLE G); simpl;
    try reflexivity.
  destruct call as [|e]; simpl; [reflexivity |].
  destruct (Str.contains "429" (Str.lower e) || Str.contains "quota" (Str.lower e)
            || Str.contains "rate limit" (Str.lower e)
            || Str.contains "resource exhausted" (Str.lower e)); simpl; [reflexivity |].
  destruct endpoint as [status_code text | e2]; simpl; [| reflexivity].
  by repeat case_bool_decide.
Qed.

(** ** Slugs and titles *)

(** what [slug_of] does to one character *)
Definition slug_char (c : ascii) : ascii :=
  if Ascii.eqb (Str.lower_char c) " " then "-"%char else Str.lower_char c.

Lemma slug_char_shape c :
  negb (Ascii.eqb (slug_char c) " ") && negb (Str.isupper (slug_char c)) = true /\
  slug_char (slug_char c) = slug_char c.
Proof. destruct c as [[] [] [] [] [] [] [] []]; split; reflexivity. Qed.

Lemma slug_of_chars keyword : slug_of keyword = Str.map_chars slug_char keyword.
Proof.
  unfold slug_of, Str.replace_char, Str.lower.
  induction keyword as [|c keyword IH]; [done |]. simpl. by rewrite IH.
Qed.

Lemma slug_char_ascii c : (Str.code c <? 128)%N = true -> (Str.code (slug_char c) <? 128)%N = true.
Proof. destruct c as [[] [] [] [] [] [] [] []]; intros H; try reflexivity; discriminate H. Qed.

(** X21: for a keyword of ASCII characters, the slug is ASCII text of the
    length of the keyword and contains no space and no upper-case letter;
    only spaces and upper-case letters are changed, so a slug is its own
    slug. *)
Theorem slug_of_shape keyword :
  Str.isascii keyword = true ->
  Str.isascii (slug_of keyword) = true /\
  String.length (slug_of keyword) = String.length keyword /\
  all_chars (fun c => negb (Ascii.eqb c " ") && negb (Str.isupper c)) (slug_of keyword) = true /\
  slug_of (slug_of keyword) = slug_of keyword.
Proof.
  rewrite !slug_of_chars. intros Hascii. split.
  { induction keyword as [|c keyword IH]; [done |].
    simpl in Hascii. apply andb_true_iff in Hascii as [Hc Hrest].
    simpl. by rewrite (slug_char_ascii c Hc), (IH Hrest). }
  clear Hascii. split; [apply length_map_chars |].
  induction keyword as [|c keyword [IH1 IH2]]; [by split |].
  destruct (slug_char_shape c) as [Hshape Hagain]. simpl.
  rewrite Hshape, Hagain, IH1. split; [done | by rewrite IH2].
Qed.

Lemma slug_of_shape_witness :
  Str.isascii "SEO Tips" = true /\
  slug_of "SEO Tips" = "seo-tips" /\
  String.length (slug_of "SEO Tips") = String.length "SEO Tips".
Proof.
  split; [reflexivity |]. split; [reflexivity |].
  apply (slug_of_shape "SEO Tips"). reflexivity.
Defined.

Lemma contains_at_end needle pre : Str.contains needle (pre +:+ needle) = true.
Proof.
  rewrite <- (append_nil_r needle) at 2. apply contains_append.
Qed.

Ltac mentions_keyword :=
  first [ apply contains_append
        | apply (contains_append _ "")
        | apply contains_at_end
        | rewrite <- append_assoc; apply contains_append ].

Ltac all_mention_keyword K :=
  apply (choice_Forall (fun t => Str.contains K t = true));
  repeat (constructor; [mentions_keyword |]); constructor.

(** X22: every title the rule engine writes, for a node or for a mock
    competitor, contains the keyword in title case. *)
Theorem rule_titles_mention_keyword W c keyword i custom_prompt :
  Str.contains (Str.title keyword) (rule_title W c keyword i custom_prompt) = true /\
  Forall (fun r => Str.contains (Str.title keyword) (comp_title r) = true)
         (rule_competitors W c keyword).
Proof.
  split.
  - unfold rule_title, custom_template_title, standard_template_title.
    destruct (Str.truthy custom_prompt), i;
      repeat match goal with |- context [if ?b then _ else _] => destruct b end;
      all_mention_keyword (Str.title keyword).
  - unfold rule_competitors. apply Forall_imap_intro. intros j domain _. simpl.
    all_mention_keyword (Str.title keyword).
Qed.

(** ** Answers taken as they come *)

Lemma py_truthy_list {A} (f : A -> PyVal) (l : list A) :
  py_truthy (PyList (f <$> l)) = nonempty l.
Proof. by destruct l. Qed.

Lemma truthy_pos s : Str.truthy s = true -> 0 < String.length s.
Proof. destruct s; [discriminate | simpl; lia]. Qed.

Ltac case_nonempty :=
  match goal with
  | |- context [if nonempty ?l then _ else _] => destruct (nonempty l)
  end.

(** On answers in the prompted form the capabilities of [Raw] are those of
    [Section Capabilities]. *)
Lemma raw_related_keywords_of_prompted_form G env W p keyword intent :
  Raw.generate_related_keywords G env W (answers_of W) p keyword intent =
    Returns (PyList (PyStr <$> generate_related_keywords G env W p keyword intent)).
Proof.
  unfold Raw.generate_related_keywords, generate_related_keywords,
    Raw.generate_related_keywords_with_openai, generate_related_keywords_with_openai.
  cbv zeta. simpl openai_keywords_json.
  match goal with |- context [openai_keywords_reply W ?c ?k ?i] =>
    generalize (openai_keywords_reply W c k i) end.
  intros l.
  replace (dict_get "keywords" [("keywords", PyList (PyStr <$> l))])
    with (Some (PyList (PyStr <$> l))) by reflexivity.
  destruct (OPENAI_AVAILABLE G && env_set env "OPENAI_API_KEY") eqn:Hopenai.
  - apply andb_true_iff in Hopenai as [_ ->].
    rewrite py_truthy_list. destruct (nonempty l) eqn:Hl.
    + simpl py_len. rewrite length_fmap.
      rewrite bool_decide_true by by apply nonempty_length_pos.
      unfold py_slice. by rewrite fmap_take.
    + by case_nonempty.
  - simpl. by case_nonempty.
Qed.

Lemma mapM_search_record (l : list Competitor) :
  mapM Raw.search_record (search_item <$> l) = Some (dict_of_competitor <$> l).
Proof.
  apply mapM_Some. induction l as [|r l IH]; constructor; [reflexivity | exact IH].
Qed.

Lemma raw_search_of_prompted_form env W c keyword :
  Raw.generate_competitors_with_google_search env (answers_of W) c keyword =
    dict_of_competitor <$> generate_competitors_with_google_search env W c keyword.
Proof.
  unfold Raw.generate_competitors_with_google_search, generate_competitors_with_google_search.
  destruct (_ && _); [| reflexivity]. simpl google_search_json.
  change (default [] (mapM Raw.search_record
            (take 3 (search_item <$> google_search_reply W c keyword))) =
          dict_of_competitor <$> take 3 (google_search_reply W c keyword)).
  by rewrite <- fmap_take, mapM_search_record.
Qed.

Lemma raw_openai_competitors_of_prompted_form env W c keyword :
  Raw.generate_competitors_with_openai env (answers_of W) c keyword =
    PyList (dict_of_competitor <$> generate_competitors_with_openai env W c keyword).
Proof.
  unfold Raw.generate_competitors_with_openai, generate_competitors_with_openai.
  destruct (env_set env "OPENAI_API_KEY"); [| reflexivity].
  simpl openai_competitors_json.
  change (PyList (take 3 (dict_of_competitor <$> openai_competitors_reply W c keyword)) =
          PyList (dict_of_competitor <$> take 3 (openai_competitors_reply W c keyword))).
  by rewrite fmap_take.
Qed.

Lemma nonempty_fmap {A B} (f : A -> B) (l : list A) : nonempty (f <$> l) = nonempty l.
Proof. by destruct l. Qed.

Lemma raw_competitors_of_prompted_form G env W c keyword :
  Raw.generate_competitors G env W (answers_of W) c keyword =
    Returns (PyList (dict_of_competitor <$> generate_competitors G env W c keyword)).
Proof.
  unfold Raw.generate_competitors, generate_competitors. cbv zeta.
  rewrite raw_search_of_prompted_form, raw_openai_competitors_of_prompted_form.
  replace (if GOOGLE_SEARCH_AVAILABLE G
           then dict_of_competitor <$> generate_competitors_with_google_search env W c keyword
           else [])
    with (dict_of_competitor <$>
            (if GOOGLE_SEARCH_AVAILABLE G
             then generate_competitors_with_google_search env W c keyword else []))
    by by destruct (GOOGLE_SEARCH_AVAILABLE G).
  rewrite nonempty_fmap. case_nonempty; [reflexivity |].
  destruct (OPENAI_AVAILABLE G && env_set env "OPENAI_API_KEY").
  - rewrite py_truthy_list.
    destruct (nonempty (generate_competitors_with_openai env W c keyword)) eqn:Ha.
    + simpl py_len. rewrite length_fmap.
      by rewrite bool_decide_true by by apply nonempty_length_pos.
    + by case_nonempty.
  - simpl. by case_nonempty.
Qed.

(** the value the OpenAI competitor adapter hands on is a list or a str of
    at most three entries *)
Lemma raw_openai_competitors_shape env J c keyword :
  match Raw.generate_competitors_with_openai env J c keyword with
  | PyList l => length l <= 3
  | PyStr s => String.length s <= 3
  | _ => False
  end.
Proof.
  unfold Raw.generate_competitors_with_openai.
  destruct (env_set env "OPENAI_API_KEY"); [| simpl; lia].
  destruct (openai_competitors_json J c keyword) as [[| | | | |l|items] |];
    try (simpl; lia).
  - rewrite length_take. lia.
  - destruct (dict_get "competitors" items) as [[| | | |s|l|items'] |];
      try (simpl; lia).
    + simpl. apply length_first_chars.
    + simpl. rewrite length_take. lia.
    + destruct (first_list_value items); simpl; [rewrite length_take |]; lia.
Qed.

Lemma raw_search_competitors_length env J c keyword :
  length (Raw.generate_competitors_with_google_search env J c keyword) <= 3.
Proof.
  unfold Raw.generate_competitors_with_google_search.
  destruct (_ && _); [| simpl; lia].
  destruct (google_search_json J c keyword) as [[| | | | | |data] |]; try (simpl; lia).
  destruct (dict_get "items" data) as [[| | | | |items|] |]; try (simpl; lia).
  destruct (mapM Raw.search_record (take 3 items)) as [records |] eqn:Hrecords;
    [| simpl; lia].
  apply length_mapM in Hrecords. simpl. rewrite <- Hrecords, length_take. lia.
Qed.

Lemma raw_generate_competitors_shape G env W J c keyword :
  exists v n, Raw.generate_competitors G env W J c keyword = Returns v /\
    sliceable v = true /\ py_len v = Returns n /\ 1 <= n <= 3.
Proof.
  unfold Raw.generate_competitors. cbv zeta.
  match goal with |- context [if nonempty ?l then Returns (PyList ?l) else _] =>
    pose proof (raw_search_competitors_length env J c keyword) as Hsearch;
    assert (Hs : length l <= 3) by (destruct (GOOGLE_SEARCH_AVAILABLE G); [exact Hsearch | simpl; lia]);
    destruct (nonempty l) eqn:Hfound;
      [exists (PyList l), (length l); apply nonempty_length_pos in Hfound; repeat split; lia |]
  end.
  assert (Hrest : exists v n,
    (let gemini_competitors :=
       if GEMINI_AVAILABLE G && env_set env "GEMINI_API_KEY"
       then generate_competitors_with_gemini G env W c keyword else [] in
     if nonempty gemini_competitors then PyList (dict_of_competitor <$> gemini_competitors)
     else PyList (dict_of_competitor <$> rule_competitors W c keyword)) = v /\
    sliceable v = true /\ py_len v = Returns n /\ 1 <= n <= 3).
  { cbv zeta.
    match goal with |- context [if nonempty ?l then _ else _] =>
      assert (Hg : length l <= 3)
        by (apply length_if_le; unfold generate_competitors_with_gemini;
            apply length_if_le; rewrite length_take; lia);
      destruct (nonempty l) eqn:Hgem;
        [exists (PyList (dict_of_competitor <$> l)), (length l);
         apply nonempty_length_pos in Hgem; simpl; rewrite length_fmap; repeat split; lia |]
    end.
    exists (PyList (dict_of_competitor <$> rule_competitors W c keyword)), 3.
    simpl. rewrite length_fmap, length_rule_competitors. repeat split; lia. }
  cbv zeta in Hrest. destruct Hrest as (rest & m & Hrest & Hrest').
  rewrite Hrest.
  destruct (OPENAI_AVAILABLE G && env_set env "OPENAI_API_KEY"); [| by exists rest, m].
  pose proof (raw_openai_competitors_shape env J c keyword) as Hshape.
  destruct (Raw.generate_competitors_with_openai env J c keyword) as [| | | |s|l|]; try done.
  - simpl. destruct (Str.truthy s) eqn:Hs'; [| by exists rest, m].
    apply truthy_pos in Hs'. rewrite bool_decide_true by done.
    exists (PyStr s), (String.length s). repeat split; lia.
  - simpl. destruct (nonempty l) eqn:Hl; [| by exists rest, m].
    apply nonempty_length_pos in Hl. rewrite bool_decide_true by done.
    exists (PyList l), (length l). repeat split; lia.
Qed.

Lemma raw_related_keywords_raises G env W J p keyword intent :
  let i := match intent with
           | Some i => i
           | None => determine_intent G env W {| role := RelatedIntent; site := p |} keyword
           end in
  let answer :=
    Raw.generate_related_keywords_with_openai env J
      {| role := RelatedKeywords; site := p |} keyword i in
  is_raises (Raw.generate_related_keywords G env W J p keyword intent) =
    OPENAI_AVAILABLE G && env_set env "OPENAI_API_KEY" && py_truthy answer
    && negb (sliceable answer).
Proof.
  intros i answer. unfold Raw.generate_related_keywords. cbv zeta. fold i. fold answer.
  match goal with |- context [if nonempty ?g then ?a else ?b] =>
    generalize (if nonempty g then a else b) end.
  intros rest.
  destruct (OPENAI_AVAILABLE G && env_set env "OPENAI_API_KEY"); [| reflexivity].
  clearbody answer. destruct answer as [|b|z|q|s|l|items]; simpl.
  - reflexivity.
  - by destruct b.
  - by destruct (negb _).
  - by destruct (negb _).
  - destruct (Str.truthy s); [| reflexivity]. by case_bool_decide.
  - destruct (nonempty l); [| reflexivity]. by case_bool_decide.
  - destruct (nonempty items) eqn:Hitems; [| reflexivity].
    by rewrite bool_decide_true by by apply nonempty_length_pos.
Qed.

(** C3, the behaviour of the code.  [generate_related_keywords] tests and
    slices the value of the OpenAI adapter outside any [try], and the
    adapter hands on [result["keywords"]] whatever it is.  So the call
    raises exactly when OpenAI is consulted and that value is truthy but
    neither a list nor a str: a number, [True], a dict.  With the answer
    [{"keywords": {"primary": ["seo tips"]}}] the call for "seo" raises,
    where the specification's resolver finds no usable offer and returns
    the rule engine's list, which is not empty. *)
Theorem C3_malformed_answer_escapes_fallback :
  let G := import_module true true ∅ in
  let c := {| role := RelatedKeywords; site := [] |} in
  let rule_engine :=
    PyList (PyStr <$> rule_related_keywords quiet_world c "seo" Informational) in
  (forall G env W J p keyword intent,
     let i := match intent with
              | Some i => i
              | None => determine_intent G env W {| role := RelatedIntent; site := p |} keyword
              end in
     let answer :=
       Raw.generate_related_keywords_with_openai env J
         {| role := RelatedKeywords; site := p |} keyword i in
     is_raises (Raw.generate_related_keywords G env W J p keyword intent) =
       OPENAI_AVAILABLE G && env_set env "OPENAI_API_KEY" && py_truthy answer
       && negb (sliceable answer)) /\
  Raw.generate_related_keywords_with_openai openai_env grouped_answers c "seo" Informational =
    PyDict [("primary", PyList [PyStr "seo tips"])] /\
  Raw.generate_related_keywords G openai_env quiet_world grouped_answers [] "seo" None = Raises /\
  resolve nonempty_list
    [offer (OPENAI_AVAILABLE G && env_set openai_env "OPENAI_API_KEY")
       (Raw.generate_related_keywords_with_openai openai_env grouped_answers c "seo"
          Informational)
       (PyList []);
     offer (GEMINI_AVAILABLE G && env_set openai_env "GEMINI_API_KEY")
       (PyList (PyStr <$>
          generate_related_keywords_with_gemini G openai_env quiet_world c "seo" Informational))
       (PyList [])]
    rule_engine = rule_engine /\
  nonempty_list rule_engine = true.
Proof.
  intros G c rule_engine.
  assert (Hkey : env_set openai_env "OPENAI_API_KEY" = true) by by vm_compute.
  assert (Hgem : env_set openai_env "GEMINI_API_KEY" = false) by by vm_compute.
  assert (Hanswer :
    Raw.generate_related_keywords_with_openai openai_env grouped_answers c "seo" Informational =
      PyDict [("primary", PyList [PyStr "seo tips"])]).
  { unfold Raw.generate_related_keywords_with_openai. by rewrite Hkey. }
  split; [apply raw_related_keywords_raises |].
  split; [exact Hanswer |].
  split.
  - pose proof (raw_related_keywords_raises G openai_env quiet_world grouped_answers
                  [] "seo" None) as Hraises.
    cbv zeta in Hraises.
    replace (determine_intent G openai_env quiet_world
               {| role := RelatedIntent; site := [] |} "seo")
      with Informational in Hraises
      by (unfold determine_intent, determine_intent_with_openai,
            determine_intent_with_gemini, initialize_gemini;
          rewrite Hkey, Hgem; by vm_compute).
    fold c in Hraises. rewrite Hanswer, Hkey in Hraises.
    by destruct (Raw.generate_related_keywords _ _ _ _ _ _ _).
  - split.
    + rewrite Hanswer, Hkey, Hgem. reflexivity.
    + unfold rule_engine.
      pose proof (proj1 (rule_related_keywords_length quiet_world c "seo" Informational)).
      by destruct (rule_related_keywords quiet_world c "seo" Informational); [simpl in *; lia |].
Qed.

(** X11: whatever the services answer, and for every keyword, intent and
    custom prompt, [generate_title] returns a title that is not empty, and
    [generate_competitors] returns, without raising, a value of 1 to 3
    entries.  That value is a list or a str: the OpenAI adapter slices
    whatever stands under "competitors", and the first three characters of
    a text pass the test of the cascade as three entries do. *)
Theorem title_and_competitors_never_empty G env W J c keyword intent custom_prompt :
  Str.truthy (generate_title G env W c keyword intent custom_prompt) = true /\
  exists v n, Raw.generate_competitors G env W J c keyword = Returns v /\
    sliceable v = true /\ py_len v = Returns n /\ 1 <= n <= 3.
Proof.
  split; [apply generate_title_truthy | apply raw_generate_competitors_shape].
Qed.
